(** * ArUcoMarkerDetector: detection store, queries, camera model, mask dilation

    A shallow embedding of
    [SpectatorView.Compositor/Compositor/ArUcoMarkerDetector.cpp].

    Conventions.
    - A C++ [int] is a [Z]; [static_cast<size_t>] is written out as a
      reduction modulo [2 ^ size_t_bits].
    - A C++ [double] is Rocq's primitive binary64 float.  A C++ [float] is
      the carrier of a [FloatModel], which also gives the two conversions
      the source performs; [binary32] is the IEEE instance.
    - [ArUcoMarkerDetector.h] is not among the sources: [Vector3], [Marker]
      and the member [_detectedMarkers] are as the .cpp file uses them.
    - [_detectedMarkers] is a finite map from [int] to [Marker]; a range-for
      over it visits [map_to_list], an order callers may not rely on.
    - A caller's [int*] output buffer is the [list Z] of the cells it owns;
      a store past its end is undefined behaviour.
    - Functions that may run into undefined behaviour (or leave through an
      OpenCV exception) return [option]; [None] stands for "does not return
      normally".
    - [OutputDebugString] traffic is out of band and is left out. *)

From Stdlib Require Import ZArith NArith Lia.
From Stdlib Require PrimFloat SpecFloat FloatOps.
From stdpp Require Import base option list gmap fin_maps strings.

Local Open Scope Z_scope.

(** ** Scalars *)

Definition double : Type := PrimFloat.float.

Class FloatModel : Type := {
  float : Type;
  (** the implicit widening conversion in [m.at<double>(i, j) = f[k]] *)
  float_to_double : float → double;
  (** [static_cast<float>(d)] *)
  static_cast_float : double → float;
}.

(** IEEE binary32 (24 bits of precision, infinities at exponent 128),
    rounding to nearest even, with a single NaN. *)
Definition binary32_of_double (d : double) : SpecFloat.spec_float :=
  match FloatOps.Prim2SF d with
  | SpecFloat.S754_finite s m e => SpecFloat.binary_round 24 128 s m e
  | other => other
  end.

Definition double_of_binary32 (f : SpecFloat.spec_float) : double :=
  FloatOps.SF2Prim
    match f with
    | SpecFloat.S754_finite s m e => SpecFloat.binary_round 53 1024 s m e
    | other => other
    end.

Definition binary32 : FloatModel :=
  {| float := SpecFloat.spec_float;
     float_to_double := double_of_binary32;
     static_cast_float := binary32_of_double |}.

Definition INT_MAX : Z := 2 ^ 31 - 1.
Definition INT_MIN : Z := - 2 ^ 31.
Definition is_int (z : Z) : Prop := INT_MIN ≤ z ≤ INT_MAX.

(** [size_t] on the x64 build of the compositor. *)
Definition size_t_bits : Z := 64.
Definition static_cast_size_t (z : Z) : Z := z mod 2 ^ size_t_bits.

(** ** Detection store *)

Section Store.
Context {FM : FloatModel}.

Record Vector3 : Type := { x : float; y : float; z : float }.

Record Marker : Type := {
  id : Z;
  position : Vector3;
  rotation : Vector3;
}.

(** The detector object: its only data member. *)
Record ArUcoMarkerDetector : Type := {
  _detectedMarkers : gmap Z Marker;
}.

(** The default constructor leaves the map empty. *)
Definition ArUcoMarkerDetector_new : ArUcoMarkerDetector :=
  {| _detectedMarkers := ∅ |}.

(** *** GetDetectedMarkerIds *)

(** The range-for of [GetDetectedMarkerIds]: one store into
    [_detectedIds[index]] and one [index++] per visited pair.  The store is
    undefined past the end of the buffer, the increment of the [int] is
    undefined at [INT_MAX]. *)
Fixpoint write_ids (pairs : list (Z * Marker)) (_detectedIds : list Z)
    (index : nat) : option (list Z * nat) :=
  match pairs with
  | [] => Some (_detectedIds, index)
  | markerPair :: rest =>
      if decide ((index < length _detectedIds)%nat ∧ Z.of_nat index < INT_MAX)
      then write_ids rest (<[index := id markerPair.2]> _detectedIds) (S index)
      else None
  end.

Definition GetDetectedMarkerIds (this : ArUcoMarkerDetector)
    (_detectedIds : list Z) (size : Z)
    : option (ArUcoMarkerDetector * list Z * bool) :=
  if decide (static_cast_size_t size
             < Z.of_nat (base.size (_detectedMarkers this)))
  then Some (this, _detectedIds, false)
  else
    '(buf, _) ← write_ids (map_to_list (_detectedMarkers this)) _detectedIds 0;
    Some (this, buf, true).

(** The ids a range-for over the store meets, in the order it meets them:
    what [GetDetectedMarkerIds] has to report. *)
Definition stored_ids (this : ArUcoMarkerDetector) : list Z :=
  (λ markerPair : Z * Marker, id markerPair.2)
    <$> map_to_list (_detectedMarkers this).

(** Every marker is filed under its own id. *)
Definition keyed_by_id (this : ArUcoMarkerDetector) : Prop :=
  ∀ (k : Z) (marker : Marker),
    _detectedMarkers this !! k = Some marker → id marker = k.

(** *** GetDetectedMarkerPose *)

(** [position] and [rotation] stand for the two objects the out-pointers
    refer to, taken to be distinct; the result carries their new values. *)
Definition GetDetectedMarkerPose (this : ArUcoMarkerDetector)
    (_detectedId : Z) (position rotation : Vector3)
    : ArUcoMarkerDetector * Vector3 * Vector3 * bool :=
  match _detectedMarkers this !! _detectedId with
  | None => (this, position, rotation, false)
  | Some marker =>
      (* the two [memcpy_s] calls, each of one whole [Vector3] *)
      let '{| position := marker_position; rotation := marker_rotation |} :=
        marker in
      (this, marker_position, marker_rotation, true)
  end.

End Store.

Arguments Vector3 : clear implicits.
Arguments Marker : clear implicits.
Arguments ArUcoMarkerDetector : clear implicits.

(** ** OpenCV values *)

Module cv.

(** OpenCV itself is not among the sources; the few operations of
    [cv::Mat] the detector uses are written after their documented
    behaviour.

    A [cv::Mat] taken by value: its dimensions and its elements, row-major.
    Used for the matrices [DetectMarkers] builds and hands to OpenCV. *)
Record Mat (A : Type) : Type := { rows : Z; cols : Z; data : list A }.
Arguments rows {A} _.
Arguments cols {A} _.
Arguments data {A} _.

(** [cv::Mat(rows, cols, type, cv::Scalar(v))] *)
Definition Mat_fill {A : Type} (rows cols : Z) (v : A) : Mat A :=
  {| rows := rows; cols := cols; data := replicate (Z.to_nat (rows * cols)) v |}.

(** Reading [m.at<T>(i, j)]; outside the matrix there is no element. *)
Definition Mat_at {A : Type} (m : Mat A) (i j : Z) : option A :=
  if decide (0 ≤ i < rows m ∧ 0 ≤ j < cols m)
  then data m !! Z.to_nat (i * cols m + j)
  else None.

(** The assignment [m.at<T>(i, j) = v]; undefined outside the matrix. *)
Definition Mat_set {A : Type} (m : Mat A) (i j : Z) (v : A) : option (Mat A) :=
  if decide (0 ≤ i < rows m ∧ 0 ≤ j < cols m)
  then Some {| rows := rows m; cols := cols m;
               data := <[Z.to_nat (i * cols m + j) := v]> (data m) |}
  else None.

(** [cv::Vec3d]: the components [v[0]], [v[1]], [v[2]]. *)
Record Vec3d : Type := { v0 : double; v1 : double; v2 : double }.

End cv.

(** ** The ArUco routines of OpenCV

    [DetectMarkers] calls into OpenCV for the colour conversion, the marker
    detection and the pose estimation.  They are taken as given: any
    functions of these types. *)

Section ArUcoInterface.
Context {FM : FloatModel}.

Record Point2f : Type := { pt_x : float; pt_y : float }.

Class ArUco : Type := {
  GrayImage : Type;
  Dictionary : Type;
  DetectorParameters : Type;
  (** [cv::cvtColor(image, gray, COLOR_BGRA2GRAY)] *)
  cvtColor_BGRA2GRAY : cv.Mat Byte.byte → GrayImage;
  (** [cv::aruco::getPredefinedDictionary(PREDEFINED_DICTIONARY_NAME(id))] *)
  getPredefinedDictionary : Z → Dictionary;
  (** [cv::aruco::DetectorParameters::create()] *)
  DetectorParameters_create : DetectorParameters;
  (** [cv::aruco::detectMarkers]: corners, ids, rejected candidates *)
  detectMarkers :
    GrayImage → Dictionary → DetectorParameters →
    list (list Point2f) * list Z * list (list Point2f);
  (** [cv::aruco::estimatePoseSingleMarkers]: rotation and translation
      vectors *)
  estimatePoseSingleMarkers :
    list (list Point2f) → float → cv.Mat double → cv.Mat double →
    list cv.Vec3d * list cv.Vec3d;
}.

End ArUcoInterface.

Arguments Point2f : clear implicits.
Arguments ArUco : clear implicits.

(** ** DetectMarkers *)

(** [for (size_t i = start; i < start + n; i++) body], threading the state
    the body updates; the loop is abandoned when the body is undefined. *)
Fixpoint for_loop {S : Type} (n : nat) (i : nat)
    (body : nat → S → option S) (s : S) : option S :=
  match n with
  | O => Some s
  | Datatypes.S n' => s' ← body i s; for_loop n' (Datatypes.S i) body s'
  end.

Section Detect.
Context {FM : FloatModel} {CV : ArUco FM}.

(** Lines 67-72: the 3x3 intrinsic matrix. *)
Definition cameraMatrix_of (focalLength principalPoint : list float)
    : option (cv.Mat double) :=
  let cameraMatrix := cv.Mat_fill 3 3 PrimFloat.zero in
  fx ← focalLength !! 0%nat;
  cameraMatrix ← cv.Mat_set cameraMatrix 0 0 (float_to_double fx);
  px ← principalPoint !! 0%nat;
  cameraMatrix ← cv.Mat_set cameraMatrix 0 2 (float_to_double px);
  fy ← focalLength !! 1%nat;
  cameraMatrix ← cv.Mat_set cameraMatrix 1 1 (float_to_double fy);
  py ← principalPoint !! 1%nat;
  cameraMatrix ← cv.Mat_set cameraMatrix 1 2 (float_to_double py);
  cv.Mat_set cameraMatrix 2 2 PrimFloat.one.

(** Lines 75-80: the 1x5 distortion coefficients. *)
Definition distCoeffMatrix_of (radialDistortion tangentialDistortion : list float)
    : option (cv.Mat double) :=
  let distCoeffMatrix := cv.Mat_fill 1 5 PrimFloat.zero in
  r1 ← radialDistortion !! 0%nat;
  distCoeffMatrix ← cv.Mat_set distCoeffMatrix 0 0 (float_to_double r1);
  r2 ← radialDistortion !! 1%nat;
  distCoeffMatrix ← cv.Mat_set distCoeffMatrix 0 1 (float_to_double r2);
  t1 ← tangentialDistortion !! 0%nat;
  distCoeffMatrix ← cv.Mat_set distCoeffMatrix 0 2 (float_to_double t1);
  t2 ← tangentialDistortion !! 1%nat;
  distCoeffMatrix ← cv.Mat_set distCoeffMatrix 0 3 (float_to_double t2);
  r3 ← radialDistortion !! 2%nat;
  cv.Mat_set distCoeffMatrix 0 4 (float_to_double r3).

(** Lines 104-111: the [Marker] of candidate [i]. *)
Definition make_marker (id : Z) (translationVec rotationVec : cv.Vec3d)
    : Marker FM :=
  {| id := id;
     position := {| x := static_cast_float (cv.v0 translationVec);
                    y := static_cast_float (cv.v1 translationVec);
                    z := static_cast_float (cv.v2 translationVec) |};
     rotation := {| x := static_cast_float (cv.v0 rotationVec);
                    y := static_cast_float (cv.v1 rotationVec);
                    z := static_cast_float (cv.v2 rotationVec) |} |}.

(** Lines 96-112: one turn of the loop.  [operator[]] of a [std::vector]
    is undefined past its end. *)
Definition store_marker (arUcoMarkerIds : list Z)
    (rotationVecs translationVecs : list cv.Vec3d)
    (i : nat) (this : ArUcoMarkerDetector FM)
    : option (ArUcoMarkerDetector FM) :=
  id ← arUcoMarkerIds !! i;
  t ← translationVecs !! i;
  r ← rotationVecs !! i;
  Some {| _detectedMarkers :=
            <[id := make_marker id t r]> (_detectedMarkers this) |}.

(** Lines 37-57: what the detector finds in the frame. *)
Definition detect_pass (imageData : list Byte.byte)
    (imageWidth imageHeight : Z) (arUcoMarkerDictionaryId : Z)
    : list (list (Point2f FM)) * list Z * list (list (Point2f FM)) :=
  let image :=
    {| cv.rows := imageHeight; cv.cols := imageWidth; cv.data := imageData |} in
  let grayImage := cvtColor_BGRA2GRAY image in
  let arUcoDetectorParameters := DetectorParameters_create in
  let arUcoDictionary := getPredefinedDictionary arUcoMarkerDictionaryId in
  detectMarkers grayImage arUcoDictionary arUcoDetectorParameters.

(** Lines 37-91: ids of the pass with the rotation and translation vectors
    the solver returns for them. *)
Definition pose_pass (imageData : list Byte.byte)
    (imageWidth imageHeight : Z)
    (focalLength principalPoint radialDistortion tangentialDistortion
       : list float)
    (markerSize : float) (arUcoMarkerDictionaryId : Z)
    : option (list Z * list cv.Vec3d * list cv.Vec3d) :=
  let '(arUcoMarkers, arUcoMarkerIds, arUcoRejectedCandidates) :=
    detect_pass imageData imageWidth imageHeight arUcoMarkerDictionaryId in
  cameraMatrix ← cameraMatrix_of focalLength principalPoint;
  distCoeffMatrix ← distCoeffMatrix_of radialDistortion tangentialDistortion;
  let '(rotationVecs, translationVecs) :=
    estimatePoseSingleMarkers arUcoMarkers markerSize
      cameraMatrix distCoeffMatrix in
  Some (arUcoMarkerIds, rotationVecs, translationVecs).

(** [_detectedMarkers.clear()] *)
Definition clear (this : ArUcoMarkerDetector FM) : ArUcoMarkerDetector FM :=
  {| _detectedMarkers := ∅ |}.

Definition DetectMarkers (this : ArUcoMarkerDetector FM)
    (imageData : list Byte.byte) (imageWidth imageHeight : Z)
    (focalLength principalPoint radialDistortion tangentialDistortion
       : list float)
    (markerSize : float) (arUcoMarkerDictionaryId : Z)
    : option (ArUcoMarkerDetector FM * bool) :=
  '(arUcoMarkerIds, rotationVecs, translationVecs) ←
    pose_pass imageData imageWidth imageHeight focalLength principalPoint
      radialDistortion tangentialDistortion markerSize arUcoMarkerDictionaryId;
  let this := clear this in
  this ← for_loop (length arUcoMarkerIds) 0
            (store_marker arUcoMarkerIds rotationVecs translationVecs) this;
  Some (this, true).

End Detect.

(** ** GetDilatedMask *)

(** *** Morphology on matrices taken by value *)

Module morph.

(** Modelled from the spec: [cv::getStructuringElement] belongs to OpenCV
    and is not among the sources.  For [MORPH_RECT] the element is full:
    every entry of the [ksize] rectangle is 1 ("a rectangular 3x3
    structuring element").  The anchor argument selects no entry. *)
Definition getStructuringElement_RECT (ksize_width ksize_height : Z)
    (anchor : Z * Z) : cv.Mat N :=
  cv.Mat_fill ksize_height ksize_width 1%N.

(** Modelled from the spec: part of [cv::dilate], which is not among the
    sources.  Displacements (row, column) of the non-zero entries of a
    structuring element from its anchor; [cv::dilate] is called with the default anchor,
    the centre of the element. *)
Definition kernel_offsets (kernel : cv.Mat N) : list (Z * Z) :=
  let anchor_row := cv.rows kernel / 2 in
  let anchor_col := cv.cols kernel / 2 in
  i ← seqZ 0 (cv.rows kernel);
  j ← seqZ 0 (cv.cols kernel);
  match cv.Mat_at kernel i j with
  | Some e => if decide (e = 0%N) then [] else [(i - anchor_row, j - anchor_col)]
  | None => []
  end.

(** Modelled from the spec: part of [cv::dilate], which is not among the
    sources.  One output pixel: the maximum of the source over the element
    placed at (r, c).  Positions outside the image do not take part (the default
    border of a dilation never exceeds a pixel). *)
Definition dilate_pixel (src : cv.Mat N) (offsets : list (Z * Z))
    (r c : Z) : N :=
  foldr N.max 0%N
    (omap (λ d : Z * Z, cv.Mat_at src (r + d.1) (c + d.2)) offsets).

(** Modelled from the spec: [cv::dilate] belongs to OpenCV and is not among
    the sources.  "A dilated copy using a rectangular 3x3 structuring element
    [...] anchored at its center": each pixel of the result is the maximum
    of the source pixels under the element. *)
Definition dilate (src : cv.Mat N) (kernel : cv.Mat N) : cv.Mat N :=
  let offsets := kernel_offsets kernel in
  {| cv.rows := cv.rows src;
     cv.cols := cv.cols src;
     cv.data :=
       (λ k, dilate_pixel src offsets (k / cv.cols src) (k mod cv.cols src))
         <$> seqZ 0 (cv.rows src * cv.cols src) |}.

(** Number of labelled (non-zero) pixels. *)
Definition count_nonzero (pixels : list N) : nat :=
  length (filter (λ v, v ≠ 0%N) pixels).

End morph.

(** *** Mask buffers in memory *)

(** A [uint16_t*] is the address of a buffer; memory maps the addresses of
    the live buffers to their cells. *)
Abbreviation pointer := positive (only parsing).
Abbreviation memory := (gmap positive (list N)) (only parsing).

(** A [cv::Mat] header over a buffer in memory.  [owner] tells whether the
    header allocated the buffer, and so frees it when it goes out of
    scope. *)
Record MatHeader : Type := {
  hdr_rows : Z;
  hdr_cols : Z;
  hdr_data : pointer;
  hdr_owner : bool;
}.

(** [cv::Mat(size, CV_16U, data)]: a header over the caller's buffer;
    nothing is copied.  [cv::Size(col, row)] is width [col], height [row]. *)
Definition Mat_over (size_width size_height : Z) (data : pointer) : MatHeader :=
  {| hdr_rows := size_height; hdr_cols := size_width;
     hdr_data := data; hdr_owner := false |}.

(** Modelled from the spec: the allocating constructor of [cv::Mat] belongs
    to OpenCV and is not among the sources ("the dilated result is a fresh
    buffer").  [cv::Mat(size, CV_16U)]: a header that owns a newly allocated
    buffer, at an address not in use.
    Its cells are indeterminate; they are written as 0 here and are all
    overwritten before [GetDilatedMask] could read them. *)
Definition Mat_new (mem : memory) (size_width size_height : Z)
    : memory * MatHeader :=
  let p := fresh (dom mem) in
  (<[p := replicate (Z.to_nat (size_height * size_width)) 0%N]> mem,
   {| hdr_rows := size_height; hdr_cols := size_width;
      hdr_data := p; hdr_owner := true |}).

(** The pixels seen through a header.  There are none when a dimension is
    not positive or the buffer is too short for them. *)
Definition Mat_load (mem : memory) (m : MatHeader) : option (cv.Mat N) :=
  cells ← mem !! hdr_data m;
  guard (0 < hdr_rows m ∧ 0 < hdr_cols m);;
  guard (Z.to_nat (hdr_rows m * hdr_cols m) ≤ length cells)%nat;;
  Some {| cv.rows := hdr_rows m; cv.cols := hdr_cols m;
          cv.data := take (Z.to_nat (hdr_rows m * hdr_cols m)) cells |}.

(** Modelled from the spec: [cv::dilate] belongs to OpenCV and is not among
    the sources.  [cv::dilate(src, dst, kernel)] on headers: it reads the
    pixels of [src]; [dst] already has the size and type of [src], so its
    buffer is kept and receives the result.  It does not return normally
    when [src] shows no pixels. *)
Definition dilate_into (mem : memory) (src dst : MatHeader)
    (kernel : cv.Mat N) : option memory :=
  image ← Mat_load mem src;
  Some (<[hdr_data dst := cv.data (morph.dilate image kernel)]> mem).

(** Destructor of a header. *)
Definition Mat_release (mem : memory) (m : MatHeader) : memory :=
  if hdr_owner m then delete (hdr_data m) mem else mem.

(** The locals of [GetDilatedMask] when control reaches [return mask;]
    (lines 153-166): memory, [nonDilatedMask], [dilatedMask]. *)
Definition GetDilatedMask_locals (mem : memory) (mask : pointer)
    (col row : Z) : option (memory * MatHeader * MatHeader) :=
  let dilation_size := 1 in
  let nonDilatedMask := Mat_over col row mask in
  let '(mem, dilatedMask) := Mat_new mem col row in
  let kernal :=
    morph.getStructuringElement_RECT
      (2 * dilation_size + 1) (2 * dilation_size + 1)
      (dilation_size, dilation_size) in
  mem ← dilate_into mem nonDilatedMask dilatedMask kernal;
  Some (mem, nonDilatedMask, dilatedMask).

(** [GetDilatedMask]: memory after the call and the pointer returned. *)
Definition GetDilatedMask (mem : memory) (mask : pointer) (col row : Z)
    : option (memory * pointer) :=
  '(mem, nonDilatedMask, dilatedMask) ← GetDilatedMask_locals mem mask col row;
  let mem := Mat_release mem dilatedMask in
  let mem := Mat_release mem nonDilatedMask in
  Some (mem, mask).

(** ** OutputDebugMatrix *)

Section DebugOutput.
Context {T : Type}.
(** [std::to_wstring] at the element type [T]. *)
Variable to_wstring : T → string.

(** Lines 17-18: the body of the inner loop, for row [m] and column [n].
    [mat.at<T>(m, n)] is undefined where the matrix has no element. *)
Definition append_entry (mat : cv.Mat T) (m n : nat) (output : string)
    : option string :=
  value ← cv.Mat_at mat (Z.of_nat m) (Z.of_nat n);
  Some (output +:+ (", " +:+ to_wstring value)).

(** [OutputDebugMatrix<T>(prompt, mat)]: the text it hands to
    [OutputDebugString].  The two [int] counters run while they are below
    [mat.rows] and [mat.cols]. *)
Definition OutputDebugMatrix (prompt : string) (mat : cv.Mat T)
    : option string :=
  let output := prompt in
  for_loop (Z.to_nat (cv.rows mat)) 0
    (λ m output,
       for_loop (Z.to_nat (cv.cols mat)) 0 (append_entry mat m) output)
    output.

End DebugOutput.

(** ** The detectors a program can hold *)

Section Reachable.
Context {FM : FloatModel} {CV : ArUco FM}.

(** The detectors that calls of [DetectMarkers], [GetDetectedMarkerIds] and
    [GetDetectedMarkerPose] on a newly constructed detector can produce
    ([GetDilatedMask] touches no member). *)
Inductive reachable : ArUcoMarkerDetector FM → Prop :=
  | reachable_new : reachable ArUcoMarkerDetector_new
  | reachable_DetectMarkers this this' (ok : bool)
      (imageData : list Byte.byte) (imageWidth imageHeight : Z)
      (focalLength principalPoint radialDistortion tangentialDistortion
         : list float)
      (markerSize : float) (arUcoMarkerDictionaryId : Z) :
      reachable this →
      DetectMarkers this imageData imageWidth imageHeight focalLength
        principalPoint radialDistortion tangentialDistortion markerSize
        arUcoMarkerDictionaryId = Some (this', ok) →
      reachable this'
  | reachable_GetDetectedMarkerIds this this' (buf buf' : list Z)
      (size : Z) (ok : bool) :
      reachable this →
      GetDetectedMarkerIds this buf size = Some (this', buf', ok) →
      reachable this'
  | reachable_GetDetectedMarkerPose this this' (k : Z)
      (p r p' r' : Vector3 FM) (ok : bool) :
      reachable this →
      GetDetectedMarkerPose this k p r = (this', p', r', ok) →
      reachable this'.

End Reachable.

(** ** A scripted detector, for running the model

    An instance of the OpenCV interface whose answers can be read off the
    frame: every byte of the frame announces one marker, with the byte as
    its id, in the order of the bytes; the pose solver gives the k-th marker
    the translation (k, k, k) and the rotation (k+1, k+1, k+1). *)

Definition double_of_Z (n : Z) : double :=
  FloatOps.SF2Prim (SpecFloat.binary_normalize 53 1024 n 0 false).

Definition scripted_pose (k : nat) : cv.Vec3d * cv.Vec3d :=
  let r := double_of_Z (Z.of_nat k + 1) in
  let t := double_of_Z (Z.of_nat k) in
  ({| cv.v0 := r; cv.v1 := r; cv.v2 := r |},
   {| cv.v0 := t; cv.v1 := t; cv.v2 := t |}).

Definition scripted : ArUco binary32 :=
  {| GrayImage := list Byte.byte;
     Dictionary := Z;
     DetectorParameters := unit;
     cvtColor_BGRA2GRAY := cv.data;
     getPredefinedDictionary := λ n, n;
     DetectorParameters_create := tt;
     detectMarkers := λ gray _ _,
       ((λ _, []) <$> gray,
        (λ b, Z.of_N (Byte.to_N b)) <$> gray,
        []);
     estimatePoseSingleMarkers := λ corners _ _ _,
       let poses := scripted_pose <$> seq 0 (length corners) in
       (fst <$> poses, snd <$> poses) |}.

(** Frames and camera parameters for the scripted detector. *)
Definition float_of_Z (n : Z) : @float binary32 :=
  binary32_of_double (double_of_Z n).

Definition frame_7_7_3 : list Byte.byte := [Byte.x07; Byte.x07; Byte.x03].
Definition some_focalLength : list (@float binary32) :=
  [float_of_Z 500; float_of_Z 510].
Definition some_principalPoint : list (@float binary32) :=
  [float_of_Z 320; float_of_Z 240].
Definition some_radialDistortion : list (@float binary32) :=
  [float_of_Z 1; float_of_Z 2; float_of_Z 3].
Definition some_tangentialDistortion : list (@float binary32) :=
  [float_of_Z 4; float_of_Z 5].

Definition run_scripted (this : ArUcoMarkerDetector binary32)
    (frame : list Byte.byte)
    : option (ArUcoMarkerDetector binary32 * bool) :=
  @DetectMarkers binary32 scripted this frame (Z.of_nat (length frame)) 1
    some_focalLength some_principalPoint
    some_radialDistortion some_tangentialDistortion
    (float_of_Z 1) 0.

(** The detector the scripted run over [frame_7_7_3] leaves: id 7 with the
    pose of candidate 1 (its second occurrence), id 3 with that of
    candidate 2. *)
Definition detector_7_3 : ArUcoMarkerDetector binary32 :=
  {| _detectedMarkers :=
       <[3 := make_marker 3 (scripted_pose 2).2 (scripted_pose 2).1]>
         (<[7 := make_marker 7 (scripted_pose 1).2 (scripted_pose 1).1]> ∅) |}.

(** The detector the scripted run over the one-byte frame [7] leaves. *)
Definition detector_7 : ArUcoMarkerDetector binary32 :=
  {| _detectedMarkers :=
       {[ 7 := make_marker 7 (scripted_pose 0).2 (scripted_pose 0).1 ]} |}.

(** A detector that holds a marker with id 5 from some earlier pass. *)
Definition detector_5 : ArUcoMarkerDetector binary32 :=
  {| _detectedMarkers :=
       {[ 5 := make_marker 5 (scripted_pose 0).2 (scripted_pose 0).1 ]} |}.

(** A 3-row, 4-column mask with two labelled pixels, at address 5. *)
Definition mask_3x4 : list N := [0; 0; 0; 0;  7; 0; 0; 0;  0; 0; 0; 9]%N.
Definition memory_with_mask : gmap positive (list N) :=
  {[ 5%positive := mask_3x4 ]}.

(** * Properties *)

(** ** The queries *)

Section QueryFacts.
Context {FM : FloatModel}.
Implicit Types (this : ArUcoMarkerDetector FM) (buf : list Z).

Lemma length_stored_ids this :
  length (stored_ids this) = size (_detectedMarkers this).
Proof. unfold stored_ids. by rewrite length_fmap, length_map_to_list. Qed.

Lemma write_ids_fits (pairs : list (Z * Marker FM)) buf index :
  (index + length pairs ≤ length buf)%nat →
  Z.of_nat (index + length pairs) ≤ INT_MAX →
  write_ids pairs buf index =
    Some (take index buf
            ++ ((λ markerPair : Z * Marker FM, id markerPair.2) <$> pairs)
            ++ drop (index + length pairs) buf,
          (index + length pairs)%nat).
Proof.
  revert buf index.
  induction pairs as [|markerPair rest IH]; intros buf index Hlen Hmax; simpl in *.
  - rewrite Nat.add_0_r, take_drop. done.
  - rewrite decide_True by lia.
    rewrite IH by (rewrite ?length_insert; lia).
    replace (S index + length rest)%nat with (index + S (length rest))%nat by lia.
    rewrite drop_insert_lt by lia.
    rewrite (take_S_r _ _ (id markerPair.2))
      by (apply list_lookup_insert_eq; lia).
    rewrite take_insert_ge by lia.
    by rewrite <- app_assoc.
Qed.

Lemma static_cast_size_t_nonneg (size : Z) :
  0 ≤ size ≤ INT_MAX → static_cast_size_t size = size.
Proof.
  intros [H0 H1]. unfold static_cast_size_t. apply Z.mod_small.
  unfold INT_MAX, size_t_bits in *. lia.
Qed.

(** A capacity that is not negative and too small is refused. *)
Lemma GetDetectedMarkerIds_refuses this buf (size : Z) :
  0 ≤ size ≤ INT_MAX →
  size < Z.of_nat (base.size (_detectedMarkers this)) →
  GetDetectedMarkerIds this buf size = Some (this, buf, false).
Proof.
  intros Hint Hsmall. unfold GetDetectedMarkerIds.
  rewrite static_cast_size_t_nonneg by done.
  by rewrite decide_True.
Qed.

(** A capacity that is enough, with a buffer that has a cell for every
    stored marker. *)
Lemma GetDetectedMarkerIds_writes this buf (size : Z) :
  0 ≤ size ≤ INT_MAX →
  Z.of_nat (base.size (_detectedMarkers this)) ≤ size →
  (base.size (_detectedMarkers this) ≤ length buf)%nat →
  GetDetectedMarkerIds this buf size =
    Some (this,
          stored_ids this ++ drop (base.size (_detectedMarkers this)) buf,
          true).
Proof.
  intros Hint Hfit Hbuf. unfold GetDetectedMarkerIds.
  rewrite static_cast_size_t_nonneg by done.
  rewrite decide_False by lia.
  rewrite write_ids_fits by (rewrite length_map_to_list; simpl; lia).
  simpl. by rewrite length_map_to_list.
Qed.

Lemma GetDetectedMarkerPose_found this (k : Z) (marker : Marker FM)
    (p r : Vector3 FM) :
  _detectedMarkers this !! k = Some marker →
  GetDetectedMarkerPose this k p r =
    (this, position marker, rotation marker, true).
Proof.
  intros Hk. unfold GetDetectedMarkerPose. rewrite Hk. by destruct marker.
Qed.

Lemma GetDetectedMarkerPose_missing this (k : Z) (p r : Vector3 FM) :
  _detectedMarkers this !! k = None →
  GetDetectedMarkerPose this k p r = (this, p, r, false).
Proof. intros Hk. unfold GetDetectedMarkerPose. by rewrite Hk. Qed.

(** C3. [GetDetectedMarkerPose] reports failure exactly when the id is not
    a key of the store.  On failure the two output objects keep their
    values; on success they hold the stored position and rotation of that
    id.  Either way the detector is returned as it was. *)
Theorem GetDetectedMarkerPose_spec this (_detectedId : Z)
    (position0 rotation0 : Vector3 FM) :
  let '(this', position', rotation', found) :=
    GetDetectedMarkerPose this _detectedId position0 rotation0 in
  (found = false ↔ _detectedMarkers this !! _detectedId = None)
  ∧ (found = false → position' = position0 ∧ rotation' = rotation0)
  ∧ (found = true →
     ∃ marker, _detectedMarkers this !! _detectedId = Some marker
               ∧ position' = position marker ∧ rotation' = rotation marker)
  ∧ this' = this.
Proof.
  destruct (_detectedMarkers this !! _detectedId) as [marker|] eqn:Hk.
  - rewrite (GetDetectedMarkerPose_found _ _ _ _ _ Hk).
    repeat split; try done. intros _. by exists marker.
  - rewrite (GetDetectedMarkerPose_missing _ _ _ _ Hk).
    repeat split; done.
Qed.

(** C10. With a capacity above the number of stored markers, and a buffer
    that has a cell for each of them, [GetDetectedMarkerIds] succeeds; the
    cells 0 .. storedCount-1 receive the stored ids one after the other,
    every cell from storedCount on keeps its value, the buffer keeps its
    length and the detector is returned as it was. *)
Theorem GetDetectedMarkerIds_frame this buf (size : Z) :
  is_int size →
  Z.of_nat (base.size (_detectedMarkers this)) < size →
  (base.size (_detectedMarkers this) ≤ length buf)%nat →
  ∃ buf',
    GetDetectedMarkerIds this buf size = Some (this, buf', true)
    ∧ length buf' = length buf
    ∧ (∀ i : nat, (i < base.size (_detectedMarkers this))%nat →
         buf' !! i = stored_ids this !! i ∧ is_Some (buf' !! i))
    ∧ (∀ i : nat, (base.size (_detectedMarkers this) ≤ i)%nat →
         buf' !! i = buf !! i).
Proof.
  intros [_ Hmax] Hgt Hbuf.
  eexists. split.
  { apply GetDetectedMarkerIds_writes; lia. }
  pose proof (length_stored_ids this) as Hn.
  split; [|split].
  - rewrite length_app, length_drop, Hn. lia.
  - intros i Hi. rewrite lookup_app_l by lia. split; [done|].
    apply lookup_lt_is_Some. lia.
  - intros i Hi. rewrite lookup_app_r by lia.
    rewrite lookup_drop, Hn. f_equal. lia.
Qed.

End QueryFacts.

(** ** DetectMarkers *)

Section LoopFacts.
Context {S : Type}.
Implicit Types (body : nat → S → option S) (s : S).

Lemma for_loop_is_Some body (n i : nat) s :
  (∀ (j : nat) s1, (i ≤ j < i + n)%nat → is_Some (body j s1)) →
  is_Some (for_loop n i body s).
Proof.
  revert i s. induction n as [|n IH]; intros i s Hbody; simpl; [by eexists|].
  destruct (Hbody i s ltac:(lia)) as [s1 ->]. simpl.
  apply IH. intros j s2 Hj. apply Hbody. lia.
Qed.

Lemma for_loop_invariant (P : S → Prop) body (n i : nat) s s' :
  (∀ (j : nat) s1 s2, P s1 → body j s1 = Some s2 → P s2) →
  P s → for_loop n i body s = Some s' → P s'.
Proof.
  intros Hstep. revert i s.
  induction n as [|n IH]; intros i s Hs Hrun; simpl in Hrun.
  - by simplify_eq.
  - destruct (body i s) as [s1|] eqn:Hb; simpl in Hrun; [|done].
    eapply IH; [|exact Hrun]. eauto.
Qed.

End LoopFacts.

Section DetectFacts.
Context {FM : FloatModel} {CV : ArUco FM}.
Implicit Types (this : ArUcoMarkerDetector FM) (ids : list Z).
Implicit Types (rvecs tvecs : list cv.Vec3d).

Lemma store_marker_is_Some ids rvecs tvecs (i : nat) this :
  (i < length ids)%nat →
  (length ids ≤ length rvecs)%nat → (length ids ≤ length tvecs)%nat →
  is_Some (store_marker ids rvecs tvecs i this).
Proof.
  intros Hi Hr Ht. unfold store_marker.
  destruct (lookup_lt_is_Some_2 ids i Hi) as [k ->].
  destruct (lookup_lt_is_Some_2 tvecs i ltac:(lia)) as [t ->].
  destruct (lookup_lt_is_Some_2 rvecs i ltac:(lia)) as [r ->].
  simpl. by eexists.
Qed.

Lemma store_marker_inv ids rvecs tvecs (i : nat) this this' :
  store_marker ids rvecs tvecs i this = Some this' →
  ∃ k t r, ids !! i = Some k ∧ tvecs !! i = Some t ∧ rvecs !! i = Some r
    ∧ _detectedMarkers this' =
        <[k := make_marker k t r]> (_detectedMarkers this).
Proof.
  unfold store_marker. intros H.
  destruct (ids !! i) as [k|]; simpl in H; [|done].
  destruct (tvecs !! i) as [t|]; simpl in H; [|done].
  destruct (rvecs !! i) as [r|]; simpl in H; [|done].
  simplify_eq. by exists k, t, r.
Qed.

Lemma store_marker_keyed ids rvecs tvecs (i : nat) this this' :
  keyed_by_id this → store_marker ids rvecs tvecs i this = Some this' →
  keyed_by_id this'.
Proof.
  intros Hkeyed (k & t & r & _ & _ & _ & Hmap)%store_marker_inv k' marker.
  rewrite Hmap. destruct (decide (k = k')) as [->|Hne].
  - rewrite lookup_insert_eq. by intros [= <-].
  - rewrite lookup_insert_ne by done. apply Hkeyed.
Qed.

(** Keys no turn of the loop names are left as they were. *)
Lemma for_loop_store_other ids rvecs tvecs (n i : nat) this this' (k : Z) :
  for_loop n i (store_marker ids rvecs tvecs) this = Some this' →
  (∀ j : nat, (i ≤ j < i + n)%nat → ids !! j ≠ Some k) →
  _detectedMarkers this' !! k = _detectedMarkers this !! k.
Proof.
  revert i this. induction n as [|n IH]; intros i this Hrun Hfree; simpl in Hrun.
  - by simplify_eq.
  - destruct (store_marker ids rvecs tvecs i this) as [this1|] eqn:Hb;
      simpl in Hrun; [|done].
    rewrite (IH _ _ Hrun) by (intros j Hj; apply Hfree; lia).
    apply store_marker_inv in Hb as (k1 & t & r & Hk1 & _ & _ & ->).
    apply lookup_insert_ne. intros ->. by apply (Hfree i ltac:(lia)).
Qed.

(** The last turn that names a key decides what is filed under it. *)
Lemma for_loop_store_last ids rvecs tvecs (n i : nat) this this'
    (j : nat) (k : Z) (t r : cv.Vec3d) :
  for_loop n i (store_marker ids rvecs tvecs) this = Some this' →
  (i ≤ j < i + n)%nat →
  ids !! j = Some k → tvecs !! j = Some t → rvecs !! j = Some r →
  (∀ j' : nat, (j < j' < i + n)%nat → ids !! j' ≠ Some k) →
  _detectedMarkers this' !! k = Some (make_marker k t r).
Proof.
  revert i this. induction n as [|n IH];
    intros i this Hrun Hj Hk Ht Hr Hlast; simpl in Hrun; [lia|].
  destruct (store_marker ids rvecs tvecs i this) as [this1|] eqn:Hb;
    simpl in Hrun; [|done].
  destruct (decide (i = j)) as [->|Hne].
  - rewrite (for_loop_store_other _ _ _ _ _ _ _ k Hrun)
      by (intros j' Hj'; apply Hlast; lia).
    apply store_marker_inv in Hb as (k1 & t1 & r1 & Hk1 & Ht1 & Hr1 & ->).
    simplify_eq. apply lookup_insert_eq.
  - eapply IH; eauto; [lia|]. intros j' Hj'. apply Hlast. lia.
Qed.

Lemma cameraMatrix_of_eq (focalLength principalPoint : list float)
    (fx fy px py : float) :
  focalLength !! 0%nat = Some fx → focalLength !! 1%nat = Some fy →
  principalPoint !! 0%nat = Some px → principalPoint !! 1%nat = Some py →
  cameraMatrix_of focalLength principalPoint =
    Some {| cv.rows := 3; cv.cols := 3;
            cv.data :=
              [float_to_double fx; PrimFloat.zero;    float_to_double px;
               PrimFloat.zero;    float_to_double fy; float_to_double py;
               PrimFloat.zero;    PrimFloat.zero;     PrimFloat.one] |}.
Proof.
  intros Hfx Hfy Hpx Hpy. unfold cameraMatrix_of.
  rewrite Hfx, Hfy, Hpx, Hpy. reflexivity.
Qed.

Lemma distCoeffMatrix_of_eq (radialDistortion tangentialDistortion : list float)
    (r1 r2 r3 t1 t2 : float) :
  radialDistortion !! 0%nat = Some r1 → radialDistortion !! 1%nat = Some r2 →
  radialDistortion !! 2%nat = Some r3 →
  tangentialDistortion !! 0%nat = Some t1 →
  tangentialDistortion !! 1%nat = Some t2 →
  distCoeffMatrix_of radialDistortion tangentialDistortion =
    Some {| cv.rows := 1; cv.cols := 5;
            cv.data :=
              [float_to_double r1; float_to_double r2; float_to_double t1;
               float_to_double t2; float_to_double r3] |}.
Proof.
  intros Hr1 Hr2 Hr3 Ht1 Ht2. unfold distCoeffMatrix_of.
  rewrite Hr1, Hr2, Hr3, Ht1, Ht2. reflexivity.
Qed.

Lemma stored_ids_keys this :
  keyed_by_id this → stored_ids this = (map_to_list (_detectedMarkers this)).*1.
Proof.
  intros Hkeyed. unfold stored_ids. apply list_fmap_ext.
  intros i [k marker] Hi%list_elem_of_lookup_2%elem_of_map_to_list. simpl.
  by apply Hkeyed.
Qed.

Lemma stored_ids_NoDup this : keyed_by_id this → NoDup (stored_ids this).
Proof.
  intros Hkeyed. rewrite stored_ids_keys by done. apply NoDup_fst_map_to_list.
Qed.

Lemma elem_of_stored_ids this (k : Z) :
  keyed_by_id this →
  k ∈ stored_ids this ↔ is_Some (_detectedMarkers this !! k).
Proof.
  intros Hkeyed. rewrite stored_ids_keys by done.
  rewrite list_elem_of_fmap. split.
  - intros ([k' marker] & -> & Hin%elem_of_map_to_list). by eexists.
  - intros [marker Hk]. exists (k, marker). split; [done|].
    by apply elem_of_map_to_list.
Qed.

Section Pass.
Variables (imageData : list Byte.byte) (imageWidth imageHeight : Z).
Variables (focalLength principalPoint : list float).
Variables (radialDistortion tangentialDistortion : list float).
Variables (markerSize : float) (arUcoMarkerDictionaryId : Z).

Local Abbreviation pass :=
  (pose_pass imageData imageWidth imageHeight focalLength principalPoint
     radialDistortion tangentialDistortion markerSize arUcoMarkerDictionaryId).
Local Abbreviation detect this :=
  (DetectMarkers this imageData imageWidth imageHeight focalLength
     principalPoint radialDistortion tangentialDistortion markerSize
     arUcoMarkerDictionaryId).

Lemma DetectMarkers_unfold this ids rvecs tvecs :
  pass = Some (ids, rvecs, tvecs) →
  detect this =
    this' ← for_loop (length ids) 0 (store_marker ids rvecs tvecs)
              ArUcoMarkerDetector_new;
    Some (this', true).
Proof. intros Hpass. unfold DetectMarkers. rewrite Hpass. reflexivity. Qed.

Lemma DetectMarkers_inv this this' (ok : bool) :
  detect this = Some (this', ok) →
  ∃ ids rvecs tvecs,
    pass = Some (ids, rvecs, tvecs)
    ∧ for_loop (length ids) 0 (store_marker ids rvecs tvecs)
        ArUcoMarkerDetector_new = Some this'
    ∧ ok = true.
Proof.
  destruct pass as [[[ids rvecs] tvecs]|] eqn:Hpass.
  - rewrite (DetectMarkers_unfold _ _ _ _ Hpass). intros Hrun.
    destruct (for_loop _ _ _ _) as [this1|] eqn:Hloop; simpl in Hrun; [|done].
    simplify_eq. by exists ids, rvecs, tvecs.
  - unfold DetectMarkers. rewrite Hpass. done.
Qed.

Lemma DetectMarkers_runs this ids rvecs tvecs :
  pass = Some (ids, rvecs, tvecs) →
  (length ids ≤ length rvecs)%nat → (length ids ≤ length tvecs)%nat →
  ∃ this',
    for_loop (length ids) 0 (store_marker ids rvecs tvecs)
      ArUcoMarkerDetector_new = Some this'
    ∧ detect this = Some (this', true).
Proof.
  intros Hpass Hr Ht.
  destruct (for_loop_is_Some (store_marker ids rvecs tvecs) (length ids) 0
              (@ArUcoMarkerDetector_new FM)) as [this' Hloop].
  { intros j s1 Hj. apply store_marker_is_Some; lia. }
  exists this'. split; [done|].
  rewrite (DetectMarkers_unfold _ _ _ _ Hpass), Hloop. reflexivity.
Qed.

Lemma DetectMarkers_keyed this this' (ok : bool) :
  detect this = Some (this', ok) → keyed_by_id this'.
Proof.
  intros (ids & rvecs & tvecs & _ & Hloop & _)%DetectMarkers_inv.
  eapply (for_loop_invariant keyed_by_id); [|idtac|exact Hloop].
  - intros j s1 s2. apply store_marker_keyed.
  - intros k marker. unfold ArUcoMarkerDetector_new. simpl.
    by rewrite lookup_empty.
Qed.

(** C4. When the detector's three result vectors are index-aligned,
    [DetectMarkers] returns, and the store it leaves is made of this pass
    alone: whatever detector it started from the result is the same; an id
    the pass did not report is absent (also when the old store had it); an
    id the pass reported several times holds the marker of its last
    occurrence in the detector's order; every marker is filed under its own
    id, so the stored ids are pairwise different. *)
Theorem DetectMarkers_replaces_store this ids rvecs tvecs :
  pass = Some (ids, rvecs, tvecs) →
  (length ids ≤ length rvecs)%nat → (length ids ≤ length tvecs)%nat →
  ∃ this',
    detect this = Some (this', true)
    ∧ (∀ other, detect other = Some (this', true))
    ∧ (∀ k : Z, k ∉ ids → _detectedMarkers this' !! k = None)
    ∧ (∀ (j : nat) (k : Z) (t r : cv.Vec3d),
         ids !! j = Some k → tvecs !! j = Some t → rvecs !! j = Some r →
         (∀ j' : nat, (j < j')%nat → ids !! j' ≠ Some k) →
         _detectedMarkers this' !! k = Some (make_marker k t r))
    ∧ keyed_by_id this'
    ∧ NoDup (stored_ids this').
Proof.
  intros Hpass Hr Ht.
  destruct (DetectMarkers_runs this _ _ _ Hpass Hr Ht) as (this' & Hloop & Hrun).
  assert (keyed_by_id this') as Hkeyed by (by eapply DetectMarkers_keyed).
  exists this'. split; [done|]. split; [|split; [|split; [|split]]].
  - intros other.
    destruct (DetectMarkers_runs other _ _ _ Hpass Hr Ht) as (this2 & Hloop2 & ->).
    congruence.
  - intros k Hk.
    rewrite (for_loop_store_other _ _ _ _ _ _ _ k Hloop).
    + apply lookup_empty.
    + intros j _ Hj. apply Hk. by eapply list_elem_of_lookup_2.
  - intros j k t r Hk Htj Hrj Hlast.
    apply (for_loop_store_last _ _ _ _ _ _ _ j k t r Hloop); try done.
    + apply lookup_lt_Some in Hk. lia.
    + intros j' [Hj' _]. by apply Hlast.
  - done.
  - by apply stored_ids_NoDup.
Qed.

(** C6. [DetectMarkers] has no result other than [true]: whenever it
    returns, it returns [true].  It does return when the camera arrays have
    the lengths the source assumes and the detector's result vectors are
    index-aligned.  When the detector reports no id, it returns [true]
    and leaves the store empty. *)
Theorem DetectMarkers_always_true this :
  (∀ this' (ok : bool), detect this = Some (this', ok) → ok = true)
  ∧ (∀ ids rvecs tvecs,
       pass = Some (ids, rvecs, tvecs) →
       (length ids ≤ length rvecs)%nat → (length ids ≤ length tvecs)%nat →
       ∃ this', detect this = Some (this', true))
  ∧ (∀ rvecs tvecs,
       pass = Some ([], rvecs, tvecs) →
       detect this = Some (ArUcoMarkerDetector_new, true)
       ∧ _detectedMarkers (@ArUcoMarkerDetector_new FM) = ∅).
Proof.
  split; [|split].
  - by intros this' ok (_ & _ & _ & _ & _ & ->)%DetectMarkers_inv.
  - intros ids rvecs tvecs Hpass Hr Ht.
    destruct (DetectMarkers_runs this _ _ _ Hpass Hr Ht) as (this' & _ & Hrun).
    by exists this'.
  - intros rvecs tvecs Hpass. split; [|done].
    by rewrite (DetectMarkers_unfold _ _ _ _ Hpass).
Qed.

(** C9. Two runs with the same arguments, started from any two detectors,
    whatever each of them holds: when the first run returns, the second
    returns too, with the same flag, and the two stores have the same keys
    and the same marker, hence the same position and rotation, under every
    key.  The second run may also start from the detector the first one
    left.  (The OpenCV routines are functions of their arguments here; what
    is shown of the code is that nothing of the detector's previous
    contents reaches the result.) *)
Theorem DetectMarkers_two_runs thisA thisB thisA' (okA : bool) :
  DetectMarkers thisA imageData imageWidth imageHeight focalLength
    principalPoint radialDistortion tangentialDistortion markerSize
    arUcoMarkerDictionaryId = Some (thisA', okA) →
  ∃ thisB',
    DetectMarkers thisB imageData imageWidth imageHeight focalLength
      principalPoint radialDistortion tangentialDistortion markerSize
      arUcoMarkerDictionaryId = Some (thisB', okA)
    ∧ DetectMarkers thisA' imageData imageWidth imageHeight focalLength
        principalPoint radialDistortion tangentialDistortion markerSize
        arUcoMarkerDictionaryId = Some (thisB', okA)
    ∧ dom (_detectedMarkers thisB') = dom (_detectedMarkers thisA')
    ∧ (∀ k : Z, _detectedMarkers thisB' !! k = _detectedMarkers thisA' !! k)
    ∧ ∀ (k : Z) (p r : Vector3 FM),
        (GetDetectedMarkerPose thisB' k p r).1.1.2
          = (GetDetectedMarkerPose thisA' k p r).1.1.2
        ∧ (GetDetectedMarkerPose thisB' k p r).1.2
          = (GetDetectedMarkerPose thisA' k p r).1.2
        ∧ (GetDetectedMarkerPose thisB' k p r).2
          = (GetDetectedMarkerPose thisA' k p r).2.
Proof.
  intros (ids & rvecs & tvecs & Hpass & Hloop & ->)%DetectMarkers_inv.
  exists thisA'. split; [|split].
  - by rewrite (DetectMarkers_unfold _ _ _ _ Hpass), Hloop.
  - by rewrite (DetectMarkers_unfold _ _ _ _ Hpass), Hloop.
  - done.
Qed.

(** C7. After a pass of [DetectMarkers] that returned [true], a call of
    [GetDetectedMarkerIds] whose capacity is at least the number of stored
    markers (with a buffer that has a cell for each) returns [true] and writes
    the stored ids at the front of the buffer; their number is the number
    of different ids in the store, which is the number of its keys; and
    [GetDetectedMarkerPose] returns [true] for each of them, with the pose
    stored under it. *)
Theorem ids_then_poses this this' (buf : list Z) (size : Z) :
  detect this = Some (this', true) →
  is_int size →
  Z.of_nat (base.size (_detectedMarkers this')) ≤ size →
  (base.size (_detectedMarkers this') ≤ length buf)%nat →
  GetDetectedMarkerIds this' buf size =
    Some (this',
          stored_ids this' ++ drop (base.size (_detectedMarkers this')) buf,
          true)
  ∧ length (stored_ids this')
      = base.size (list_to_set (C := gset Z) (stored_ids this'))
  ∧ length (stored_ids this') = base.size (dom (_detectedMarkers this'))
  ∧ ∀ k : Z, k ∈ stored_ids this' →
      ∃ marker, _detectedMarkers this' !! k = Some marker
        ∧ ∀ p r : Vector3 FM,
            GetDetectedMarkerPose this' k p r =
              (this', position marker, rotation marker, true).
Proof.
  intros Hrun [_ Hmax] Hfit Hbuf.
  assert (keyed_by_id this') as Hkeyed by (by eapply DetectMarkers_keyed).
  split; [|split; [|split]].
  - apply GetDetectedMarkerIds_writes; lia.
  - rewrite size_list_to_set; [done|]. by apply stored_ids_NoDup.
  - by rewrite length_stored_ids, size_dom.
  - intros k [marker Hk]%elem_of_stored_ids; [|done].
    exists marker. split; [done|]. intros p r.
    by apply GetDetectedMarkerPose_found.
Qed.

(** C5. With the camera arrays holding the elements the source reads, the
    intrinsic matrix is 3x3 with [focalLength[0]] at (0,0),
    [focalLength[1]] at (1,1), [principalPoint[0]] at (0,2),
    [principalPoint[1]] at (1,2), 1.0 at (2,2) and 0.0 at the four other
    places; the distortion coefficients are the 1x5 row
    [radial[0]; radial[1]; tangential[0]; tangential[1]; radial[2]]; and
    these two are what [DetectMarkers] hands to the pose solver. *)
Theorem camera_model_layout (fx fy px py r1 r2 r3 t1 t2 : float) :
  focalLength !! 0%nat = Some fx → focalLength !! 1%nat = Some fy →
  principalPoint !! 0%nat = Some px → principalPoint !! 1%nat = Some py →
  radialDistortion !! 0%nat = Some r1 → radialDistortion !! 1%nat = Some r2 →
  radialDistortion !! 2%nat = Some r3 →
  tangentialDistortion !! 0%nat = Some t1 →
  tangentialDistortion !! 1%nat = Some t2 →
  ∃ cameraMatrix distCoeffMatrix : cv.Mat double,
    cameraMatrix_of focalLength principalPoint = Some cameraMatrix
    ∧ distCoeffMatrix_of radialDistortion tangentialDistortion
      = Some distCoeffMatrix
    ∧ cv.rows cameraMatrix = 3 ∧ cv.cols cameraMatrix = 3
    ∧ length (cv.data cameraMatrix) = 9%nat
    ∧ cv.Mat_at cameraMatrix 0 0 = Some (float_to_double fx)
    ∧ cv.Mat_at cameraMatrix 1 1 = Some (float_to_double fy)
    ∧ cv.Mat_at cameraMatrix 0 2 = Some (float_to_double px)
    ∧ cv.Mat_at cameraMatrix 1 2 = Some (float_to_double py)
    ∧ cv.Mat_at cameraMatrix 2 2 = Some PrimFloat.one
    ∧ cv.Mat_at cameraMatrix 0 1 = Some PrimFloat.zero
    ∧ cv.Mat_at cameraMatrix 1 0 = Some PrimFloat.zero
    ∧ cv.Mat_at cameraMatrix 2 0 = Some PrimFloat.zero
    ∧ cv.Mat_at cameraMatrix 2 1 = Some PrimFloat.zero
    ∧ cv.rows distCoeffMatrix = 1 ∧ cv.cols distCoeffMatrix = 5
    ∧ cv.data distCoeffMatrix =
        [float_to_double r1; float_to_double r2; float_to_double t1;
         float_to_double t2; float_to_double r3]
    ∧ pass =
        (let '(arUcoMarkers, arUcoMarkerIds, _) :=
           detect_pass imageData imageWidth imageHeight
             arUcoMarkerDictionaryId in
         let '(rotationVecs, translationVecs) :=
           estimatePoseSingleMarkers arUcoMarkers markerSize
             cameraMatrix distCoeffMatrix in
         Some (arUcoMarkerIds, rotationVecs, translationVecs)).
Proof.
  intros Hfx Hfy Hpx Hpy Hr1 Hr2 Hr3 Ht1 Ht2.
  pose proof (cameraMatrix_of_eq _ _ _ _ _ _ Hfx Hfy Hpx Hpy) as HK.
  pose proof (distCoeffMatrix_of_eq _ _ _ _ _ _ _ Hr1 Hr2 Hr3 Ht1 Ht2) as HD.
  eexists _, _. split; [exact HK|]. split; [exact HD|].
  repeat (split; [reflexivity|]).
  unfold pose_pass. rewrite HK, HD.
  by destruct (detect_pass _ _ _ _) as [[arUcoMarkers arUcoMarkerIds] ?].
Qed.

End Pass.

End DetectFacts.

(** ** GetDilatedMask *)

Section DilateFacts.
Implicit Types (src kernel : cv.Mat N) (cells out : list N).

Lemma foldr_max_ge (l : list N) (v : N) : v ∈ l → (v ≤ foldr N.max 0 l)%N.
Proof.
  induction l as [|w l IH]; simpl.
  - by intros ?%elem_of_nil.
  - intros [->|Hin%IH]%elem_of_cons; lia.
Qed.

Lemma dilate_pixel_ge src (offsets : list (Z * Z)) (r c : Z) (v : N) :
  (0, 0) ∈ offsets → cv.Mat_at src r c = Some v →
  (v ≤ morph.dilate_pixel src offsets r c)%N.
Proof.
  intros Hcentre Hv. apply foldr_max_ge, list_elem_of_omap.
  exists (0, 0). split; [done|]. simpl. by rewrite !Z.add_0_r.
Qed.

Lemma Mat_at_index src (i : nat) :
  0 < cv.cols src → Z.of_nat i < cv.rows src * cv.cols src →
  cv.Mat_at src (Z.of_nat i / cv.cols src) (Z.of_nat i mod cv.cols src)
    = cv.data src !! i.
Proof.
  intros Hcols Hi. unfold cv.Mat_at.
  pose proof (Z.mod_pos_bound (Z.of_nat i) _ Hcols) as Hmod.
  pose proof (Z.div_mod (Z.of_nat i) (cv.cols src) ltac:(lia)) as Hdm.
  assert (0 ≤ Z.of_nat i / cv.cols src) by (apply Z.div_pos; lia).
  assert (Z.of_nat i / cv.cols src < cv.rows src)
    by (apply Z.div_lt_upper_bound; lia).
  rewrite decide_True by lia. f_equal. lia.
Qed.

Lemma dilate_data_lookup src kernel (i : nat) :
  Z.of_nat i < cv.rows src * cv.cols src →
  cv.data (morph.dilate src kernel) !! i =
    Some (morph.dilate_pixel src (morph.kernel_offsets kernel)
            (Z.of_nat i / cv.cols src) (Z.of_nat i mod cv.cols src)).
Proof.
  intros Hi. unfold morph.dilate. simpl.
  rewrite list_lookup_fmap, lookup_seqZ_lt by done. done.
Qed.

Lemma length_dilate src kernel :
  length (cv.data (morph.dilate src kernel))
    = Z.to_nat (cv.rows src * cv.cols src).
Proof. unfold morph.dilate. simpl. by rewrite length_fmap, length_seqZ. Qed.

(** The output dominates the input cell by cell when the element covers
    its own anchor. *)
Lemma dilate_extensive_index src kernel (i : nat) (v : N) :
  (0, 0) ∈ morph.kernel_offsets kernel →
  0 < cv.cols src → Z.of_nat i < cv.rows src * cv.cols src →
  cv.data src !! i = Some v →
  ∃ v', cv.data (morph.dilate src kernel) !! i = Some v' ∧ (v ≤ v')%N.
Proof.
  intros Hcentre Hcols Hi Hv. eexists. split.
  - by apply dilate_data_lookup.
  - apply dilate_pixel_ge; [done|]. by rewrite Mat_at_index.
Qed.

Lemma count_nonzero_mono (l1 l2 : list N) :
  Forall2 (λ a b : N, a ≠ 0%N → b ≠ 0%N) l1 l2 →
  (morph.count_nonzero l1 ≤ morph.count_nonzero l2)%nat.
Proof.
  unfold morph.count_nonzero.
  induction 1 as [|a b l1 l2 Hab _ IH]; [done|].
  rewrite !filter_cons.
  destruct (decide (a ≠ 0%N)) as [Ha|Ha].
  - rewrite decide_True by auto. simpl. lia.
  - destruct (decide (b ≠ 0%N)); simpl; lia.
Qed.

Lemma dilate_count src kernel :
  (0, 0) ∈ morph.kernel_offsets kernel →
  0 < cv.cols src →
  length (cv.data src) = Z.to_nat (cv.rows src * cv.cols src) →
  (morph.count_nonzero (cv.data src)
     ≤ morph.count_nonzero (cv.data (morph.dilate src kernel)))%nat.
Proof.
  intros Hcentre Hcols Hlen. apply count_nonzero_mono.
  apply Forall2_same_length_lookup_2.
  - rewrite length_dilate. done.
  - intros i a b Ha Hb Hnz.
    assert (Z.of_nat i < cv.rows src * cv.cols src) as Hi.
    { apply lookup_lt_Some in Ha. lia. }
    destruct (dilate_extensive_index _ kernel _ _ Hcentre Hcols Hi Ha)
      as (v' & Hv' & Hle).
    rewrite Hb in Hv'. simplify_eq. lia.
Qed.

Lemma rect3_offsets :
  morph.kernel_offsets (morph.getStructuringElement_RECT 3 3 (1, 1)) =
    [(-1, -1); (-1, 0); (-1, 1); (0, -1); (0, 0); (0, 1);
     (1, -1); (1, 0); (1, 1)].
Proof. reflexivity. Qed.

Lemma rect3_covers_anchor :
  (0, 0) ∈ morph.kernel_offsets (morph.getStructuringElement_RECT 3 3 (1, 1)).
Proof. rewrite rect3_offsets. set_solver. Qed.

Lemma fresh_pointer_unused (mem : memory) : mem !! fresh (dom mem) = None.
Proof. apply not_elem_of_dom, is_fresh. Qed.

(** The mask as [nonDilatedMask] shows it. *)
Lemma Mat_load_over (mem : memory) (mask : pointer) (col row : Z) cells :
  mem !! mask = Some cells → 0 < row → 0 < col →
  (Z.to_nat (row * col) ≤ length cells)%nat →
  Mat_load mem (Mat_over col row mask) =
    Some {| cv.rows := row; cv.cols := col;
            cv.data := take (Z.to_nat (row * col)) cells |}.
Proof.
  intros Hmask Hrow Hcol Hlen. unfold Mat_load, Mat_over. simpl.
  rewrite Hmask. simpl. by rewrite !option_guard_True by done.
Qed.

Lemma GetDilatedMask_locals_eq (mem : memory) (mask : pointer)
    (col row : Z) cells :
  mem !! mask = Some cells → 0 < row → 0 < col →
  (Z.to_nat (row * col) ≤ length cells)%nat →
  GetDilatedMask_locals mem mask col row =
    Some (<[fresh (dom mem) :=
              cv.data
                (morph.dilate
                   {| cv.rows := row; cv.cols := col;
                      cv.data := take (Z.to_nat (row * col)) cells |}
                   (morph.getStructuringElement_RECT 3 3 (1, 1)))]> mem,
          Mat_over col row mask,
          {| hdr_rows := row; hdr_cols := col;
             hdr_data := fresh (dom mem); hdr_owner := true |}).
Proof.
  intros Hmask Hrow Hcol Hlen.
  assert (fresh (dom mem) ≠ mask) as Hne.
  { intros Heq. pose proof (fresh_pointer_unused mem) as Hnone.
    rewrite Heq, Hmask in Hnone. done. }
  unfold GetDilatedMask_locals, Mat_new, dilate_into. simpl.
  rewrite (Mat_load_over _ _ _ _ cells); try done.
  - simpl. by rewrite insert_insert_eq.
  - by rewrite lookup_insert_ne.
Qed.

(** C2. Whenever [GetDilatedMask] returns, it returns the pointer [mask] it
    was given.  For a mask of [row] x [col] cells (both positive) in a live
    buffer it does return.  The dilated pixels were put in the buffer of
    [dilatedMask], at an address that was not in use before the call and
    differs from [mask]; that buffer is gone again after the call.  The
    cells of the caller's buffer are the same when control reaches [return]
    and after the call; memory as a whole is as before the call. *)
Theorem GetDilatedMask_returns_input (mem : memory) (mask : pointer)
    (col row : Z) :
  (∀ (mem' : memory) (returned : pointer),
     GetDilatedMask mem mask col row = Some (mem', returned) →
     returned = mask)
  ∧ ∀ cells,
      mem !! mask = Some cells → 0 < row → 0 < col →
      (Z.to_nat (row * col) ≤ length cells)%nat →
      ∃ (mem_at_return : memory) (nonDilatedMask dilatedMask : MatHeader)
        (mem' : memory) (out : list N),
        GetDilatedMask_locals mem mask col row
          = Some (mem_at_return, nonDilatedMask, dilatedMask)
        ∧ GetDilatedMask mem mask col row = Some (mem', mask)
        ∧ hdr_data nonDilatedMask = mask
        ∧ hdr_data dilatedMask ≠ mask
        ∧ mem !! hdr_data dilatedMask = None
        ∧ mem_at_return !! hdr_data dilatedMask = Some out
        ∧ out =
            cv.data
              (morph.dilate
                 {| cv.rows := row; cv.cols := col;
                    cv.data := take (Z.to_nat (row * col)) cells |}
                 (morph.getStructuringElement_RECT 3 3 (1, 1)))
        ∧ mem' !! hdr_data dilatedMask = None
        ∧ mem_at_return !! mask = Some cells
        ∧ mem' !! mask = Some cells
        ∧ mem' = mem.
Proof.
  split.
  { intros mem' returned. unfold GetDilatedMask.
    destruct (GetDilatedMask_locals mem mask col row) as [[[mem1 src] dst]|];
      simpl; [|done].
    by intros [= _ <-]. }
  intros cells Hmask Hrow Hcol Hlen.
  pose proof (GetDilatedMask_locals_eq _ _ _ _ _ Hmask Hrow Hcol Hlen) as Hloc.
  pose proof (fresh_pointer_unused mem) as Hfresh.
  assert (fresh (dom mem) ≠ mask) as Hne.
  { intros Heq. rewrite Heq, Hmask in Hfresh. done. }
  eexists _, _, _, mem, _. split; [exact Hloc|].
  split.
  { unfold GetDilatedMask. rewrite Hloc. simpl.
    unfold Mat_release. simpl.
    by rewrite delete_insert_eq, delete_id. }
  simpl. split; [done|]. split; [done|]. split; [done|].
  split; [apply lookup_insert_eq|]. split; [done|]. split; [done|].
  split; [|done]. by rewrite lookup_insert_ne.
Qed.

(** C8. With the mask as in C2, let [out] be the buffer of [dilatedMask]
    when control reaches [return].  It has [row * col] cells; wherever the
    mask has a non-zero pixel, [out] has, at the same row and column, a
    pixel that is at least as large, hence non-zero; and [out] has at least
    as many non-zero pixels as the mask. *)
Theorem dilation_extensive (mem : memory) (mask : pointer)
    (col row : Z) cells :
  mem !! mask = Some cells → 0 < row → 0 < col →
  (Z.to_nat (row * col) ≤ length cells)%nat →
  ∃ (mem_at_return : memory) (nonDilatedMask dilatedMask : MatHeader)
    (out : list N),
    GetDilatedMask_locals mem mask col row
      = Some (mem_at_return, nonDilatedMask, dilatedMask)
    ∧ mem_at_return !! hdr_data dilatedMask = Some out
    ∧ length out = Z.to_nat (row * col)
    ∧ (∀ (r c : Z) (v : N),
         0 ≤ r < row → 0 ≤ c < col →
         cells !! Z.to_nat (r * col + c) = Some v → v ≠ 0%N →
         ∃ v', out !! Z.to_nat (r * col + c) = Some v'
               ∧ v' ≠ 0%N ∧ (v ≤ v')%N)
    ∧ (morph.count_nonzero (take (Z.to_nat (row * col)) cells)
         ≤ morph.count_nonzero out)%nat.
Proof.
  intros Hmask Hrow Hcol Hlen.
  pose proof (GetDilatedMask_locals_eq _ _ _ _ _ Hmask Hrow Hcol Hlen) as Hloc.
  set (image := {| cv.rows := row; cv.cols := col;
                   cv.data := take (Z.to_nat (row * col)) cells |}) in *.
  eexists _, _, _,
    (cv.data (morph.dilate image (morph.getStructuringElement_RECT 3 3 (1, 1)))).
  split; [exact Hloc|].
  split; [apply lookup_insert_eq|].
  split; [by rewrite length_dilate|]. split.
  - intros r c v Hr Hc Hv Hnz.
    assert (Z.of_nat (Z.to_nat (r * col + c)) < cv.rows image * cv.cols image)
      as Hi by (simpl; nia).
    destruct (dilate_extensive_index image
                (morph.getStructuringElement_RECT 3 3 (1, 1))
                (Z.to_nat (r * col + c)) v rect3_covers_anchor Hcol Hi)
      as (v' & Hv' & Hle).
    { simpl. rewrite lookup_take_lt by (simpl in Hi; lia). done. }
    exists v'. split; [done|]. split; [lia|done].
  - apply (dilate_count image); [apply rect3_covers_anchor|done|].
    simpl. rewrite length_take. lia.
Qed.

End DilateFacts.

(** ** The model at concrete inputs *)

(** C1 (the code departs from the claim at a negative capacity).  A
    scripted pass over a one-byte frame leaves one marker, id 7.  A call of
    [GetDetectedMarkerIds] with a one-cell buffer and capacity -1, an [int]
    smaller than the number of stored markers, is not refused: the cast to
    [size_t] turns -1 into 2^64 - 1, the size test passes, the id is
    written to cell 0 and the call returns [true]. *)
Theorem GetDetectedMarkerIds_negative_capacity :
  run_scripted ArUcoMarkerDetector_new [Byte.x07] = Some (detector_7, true)
  ∧ base.size (_detectedMarkers detector_7) = 1%nat
  ∧ is_int (-1)
  ∧ static_cast_size_t (-1) = 2 ^ 64 - 1
  ∧ -1 < Z.of_nat (base.size (_detectedMarkers detector_7))
  ∧ GetDetectedMarkerIds detector_7 [0] (-1) = Some (detector_7, [7], true).
Proof.
  split; [reflexivity|]. split; [reflexivity|].
  split; [by vm_compute|]. split; [reflexivity|]. split; reflexivity.
Qed.

Lemma GetDetectedMarkerIds_frame_witness :
  is_int 3
  ∧ Z.of_nat (base.size (_detectedMarkers detector_7_3)) < 3
  ∧ (base.size (_detectedMarkers detector_7_3)
       ≤ length [100; 101; 102; 103])%nat
  ∧ ∃ buf',
      GetDetectedMarkerIds detector_7_3 [100; 101; 102; 103] 3
        = Some (detector_7_3, buf', true)
      ∧ length buf' = 4%nat
      ∧ buf' !! 2%nat = Some 102 ∧ buf' !! 3%nat = Some 103.
Proof.
  assert (is_int 3) as H1 by (by vm_compute).
  assert (Z.of_nat (base.size (_detectedMarkers detector_7_3)) < 3) as H2
    by reflexivity.
  assert (base.size (_detectedMarkers detector_7_3)
            ≤ length [100; 101; 102; 103])%nat as H3
    by (apply Nat.leb_le; reflexivity).
  split; [exact H1|]. split; [exact H2|]. split; [exact H3|].
  destruct (GetDetectedMarkerIds_frame detector_7_3 [100; 101; 102; 103] 3
              H1 H2 H3) as (buf' & Hcall & Hlen & _ & Hrest).
  exists buf'. split; [exact Hcall|]. split; [exact Hlen|].
  split; apply Hrest; apply Nat.leb_le; reflexivity.
Defined.

Lemma scripted_pass_7_7_3 :
  @pose_pass binary32 scripted frame_7_7_3 3 1
    some_focalLength some_principalPoint
    some_radialDistortion some_tangentialDistortion (float_of_Z 1) 0
  = Some ([7; 7; 3],
          fst <$> (scripted_pose <$> seq 0 3),
          snd <$> (scripted_pose <$> seq 0 3)).
Proof. vm_compute. reflexivity. Defined.

Lemma scripted_run_7_7_3 (this : ArUcoMarkerDetector binary32) :
  run_scripted this frame_7_7_3 = Some (detector_7_3, true).
Proof. reflexivity. Defined.

Lemma DetectMarkers_replaces_store_witness :
  is_Some (_detectedMarkers detector_5 !! 5)
  ∧ ∃ this',
      run_scripted detector_5 frame_7_7_3 = Some (this', true)
      ∧ run_scripted ArUcoMarkerDetector_new frame_7_7_3 = Some (this', true)
      ∧ _detectedMarkers this' !! 5 = None
      ∧ _detectedMarkers this' !! 7
        = Some (make_marker 7 (scripted_pose 1).2 (scripted_pose 1).1)
      ∧ NoDup (stored_ids this').
Proof.
  split; [by eexists|].
  destruct (@DetectMarkers_replaces_store binary32 scripted frame_7_7_3 3 1
              some_focalLength some_principalPoint
              some_radialDistortion some_tangentialDistortion (float_of_Z 1) 0
              detector_5 _ _ _ scripted_pass_7_7_3)
    as (this' & Hrun & Hsame & Habsent & Hlast & _ & Hnodup).
  { simpl. lia. }
  { simpl. lia. }
  exists this'. split; [exact Hrun|]. split; [apply Hsame|].
  split; [|split; [|exact Hnodup]].
  - apply Habsent. intros Hin. by repeat (apply elem_of_cons in Hin as [?|Hin]; [done|]); apply elem_of_nil in Hin.
  - apply (Hlast 1%nat); [reflexivity..|].
    intros [|[|[|j']]] Hj'; simpl; (lia || done).
Defined.

Lemma DetectMarkers_always_true_witness :
  (∀ this' (ok : bool),
     run_scripted detector_5 frame_7_7_3 = Some (this', ok) → ok = true)
  ∧ (∃ this', run_scripted detector_5 frame_7_7_3 = Some (this', true))
  ∧ run_scripted detector_5 [] = Some (ArUcoMarkerDetector_new, true).
Proof.
  split; [|split].
  - apply (@DetectMarkers_always_true binary32 scripted frame_7_7_3 3 1
             some_focalLength some_principalPoint some_radialDistortion
             some_tangentialDistortion (float_of_Z 1) 0 detector_5).
  - eapply (@DetectMarkers_always_true binary32 scripted frame_7_7_3 3 1
              some_focalLength some_principalPoint some_radialDistortion
              some_tangentialDistortion (float_of_Z 1) 0 detector_5).
    + exact scripted_pass_7_7_3.
    + simpl. lia.
    + simpl. lia.
  - eapply (@DetectMarkers_always_true binary32 scripted [] 0 1
              some_focalLength some_principalPoint some_radialDistortion
              some_tangentialDistortion (float_of_Z 1) 0 detector_5).
    reflexivity.
Defined.

Lemma DetectMarkers_two_runs_witness :
  is_Some (_detectedMarkers detector_5 !! 5)
  ∧ _detectedMarkers (@ArUcoMarkerDetector_new binary32) !! 5 = None
  ∧ run_scripted detector_5 frame_7_7_3 = Some (detector_7_3, true)
  ∧ ∃ thisB',
      run_scripted ArUcoMarkerDetector_new frame_7_7_3 = Some (thisB', true)
      ∧ dom (_detectedMarkers thisB') = dom (_detectedMarkers detector_7_3)
      ∧ ∀ k : Z,
          _detectedMarkers thisB' !! k = _detectedMarkers detector_7_3 !! k.
Proof.
  split; [by eexists|]. split; [reflexivity|].
  split; [apply scripted_run_7_7_3|].
  destruct (@DetectMarkers_two_runs binary32 scripted frame_7_7_3 3 1
              some_focalLength some_principalPoint some_radialDistortion
              some_tangentialDistortion (float_of_Z 1) 0
              detector_5 ArUcoMarkerDetector_new detector_7_3 true
              (scripted_run_7_7_3 detector_5))
    as (thisB' & Hrun & _ & Hdom & Hsame & _).
  exists thisB'. split; [exact Hrun|]. split; [exact Hdom|exact Hsame].
Defined.

Lemma ids_then_poses_witness :
  run_scripted ArUcoMarkerDetector_new frame_7_7_3 = Some (detector_7_3, true)
  ∧ is_int 2
  ∧ GetDetectedMarkerIds detector_7_3 [100; 101] 2
    = Some (detector_7_3, stored_ids detector_7_3 ++ [], true)
  ∧ length (stored_ids detector_7_3) = 2%nat
  ∧ ∀ k : Z, k ∈ stored_ids detector_7_3 →
      ∃ marker, _detectedMarkers detector_7_3 !! k = Some marker
        ∧ ∀ p r : Vector3 binary32,
            GetDetectedMarkerPose detector_7_3 k p r =
              (detector_7_3, position marker, rotation marker, true).
Proof.
  assert (is_int 2) as Hint by (by vm_compute).
  destruct (@ids_then_poses binary32 scripted frame_7_7_3 3 1
              some_focalLength some_principalPoint some_radialDistortion
              some_tangentialDistortion (float_of_Z 1) 0
              ArUcoMarkerDetector_new detector_7_3 [100; 101] 2
              (scripted_run_7_7_3 _) Hint)
    as (Hids & _ & _ & Hposes).
  { apply Z.leb_le. reflexivity. }
  { apply Nat.leb_le. reflexivity. }
  split; [apply scripted_run_7_7_3|]. split; [exact Hint|].
  split; [exact Hids|]. split; [reflexivity|exact Hposes].
Defined.

Lemma camera_model_layout_witness :
  ∃ cameraMatrix distCoeffMatrix : cv.Mat double,
    @cameraMatrix_of binary32 some_focalLength some_principalPoint
      = Some cameraMatrix
    ∧ @distCoeffMatrix_of binary32 some_radialDistortion
        some_tangentialDistortion = Some distCoeffMatrix
    ∧ cv.Mat_at cameraMatrix 0 0 = Some (double_of_Z 500)
    ∧ cv.Mat_at cameraMatrix 1 2 = Some (double_of_Z 240)
    ∧ cv.Mat_at cameraMatrix 2 1 = Some PrimFloat.zero
    ∧ cv.data distCoeffMatrix =
        [double_of_Z 1; double_of_Z 2; double_of_Z 4; double_of_Z 5;
         double_of_Z 3].
Proof.
  edestruct (@camera_model_layout binary32 scripted frame_7_7_3 3 1
               some_focalLength some_principalPoint some_radialDistortion
               some_tangentialDistortion (float_of_Z 1) 0)
    as (K & D & HK & HD & _ & _ & _ & H00 & _ & _ & H12 & _ & _ & _ & _
          & H21 & _ & _ & Hdata & _);
    [reflexivity..|].
  exists K, D. split; [exact HK|]. split; [exact HD|].
  split; [exact H00|]. split; [exact H12|]. split; [exact H21|exact Hdata].
Defined.

Lemma GetDilatedMask_returns_input_witness :
  memory_with_mask !! 5%positive = Some mask_3x4
  ∧ ∃ (mem_at_return : memory) (dilatedMask : MatHeader) (out : list N),
      GetDilatedMask memory_with_mask 5 4 3 = Some (memory_with_mask, 5%positive)
      ∧ hdr_data dilatedMask ≠ 5%positive
      ∧ mem_at_return !! hdr_data dilatedMask = Some out
      ∧ mem_at_return !! 5%positive = Some mask_3x4.
Proof.
  assert (memory_with_mask !! 5%positive = Some mask_3x4) as Hmask
    by reflexivity.
  split; [exact Hmask|].
  destruct (proj2 (GetDilatedMask_returns_input memory_with_mask 5 4 3)
              mask_3x4 Hmask)
    as (mem1 & src & dst & mem' & out & _ & Hcall & _ & Hne & _ & Hout & _
          & _ & Hkept & _ & Hmem).
  { lia. }
  { lia. }
  { simpl. lia. }
  exists mem1, dst, out. rewrite Hmem in Hcall. done.
Defined.

Lemma dilation_extensive_witness :
  mask_3x4 !! Z.to_nat (1 * 4 + 0) = Some 7%N
  ∧ ∃ (mem_at_return : memory) (nonDilatedMask dilatedMask : MatHeader)
      (out : list N),
      GetDilatedMask_locals memory_with_mask 5 4 3
        = Some (mem_at_return, nonDilatedMask, dilatedMask)
      ∧ mem_at_return !! hdr_data dilatedMask = Some out
      ∧ (∃ v', out !! Z.to_nat (1 * 4 + 0) = Some v' ∧ v' ≠ 0%N)
      ∧ (morph.count_nonzero mask_3x4 ≤ morph.count_nonzero out)%nat.
Proof.
  split; [reflexivity|].
  destruct (dilation_extensive memory_with_mask 5 4 3 mask_3x4)
    as (mem1 & src & dst & out & Hloc & Hout & _ & Hpix & Hcount).
  { reflexivity. }
  { lia. }
  { lia. }
  { simpl. lia. }
  exists mem1, src, dst, out. split; [exact Hloc|]. split; [exact Hout|].
  split; [|exact Hcount].
  destruct (Hpix 1 0 7%N) as (v' & Hv' & Hnz & _); [lia|lia|reflexivity|done|].
  by exists v'.
Defined.

(** * Further properties *)

(** ** The queries, whatever the capacity *)

Section QueryBounds.
Context {FM : FloatModel}.
Implicit Types (this : ArUcoMarkerDetector FM) (buf : list Z).

Lemma static_cast_size_t_negative (size : Z) :
  INT_MIN ≤ size < 0 → static_cast_size_t size = size + 2 ^ 64.
Proof.
  intros Hneg. unfold static_cast_size_t, size_t_bits, INT_MIN in *.
  rewrite <- (Z.mod_add size 1 (2 ^ 64)) by lia.
  apply Z.mod_small. lia.
Qed.

Lemma GetDetectedMarkerIds_same_detector this this' buf buf' (size : Z)
    (ok : bool) :
  GetDetectedMarkerIds this buf size = Some (this', buf', ok) → this' = this.
Proof.
  unfold GetDetectedMarkerIds. case_decide; [by intros [= <- _ _]|].
  destruct (write_ids _ _ _) as [[buf1 index]|]; simpl; [|done].
  by intros [= <- _ _].
Qed.

Lemma GetDetectedMarkerPose_same_detector this this' (k : Z)
    (p r p' r' : Vector3 FM) (ok : bool) :
  GetDetectedMarkerPose this k p r = (this', p', r', ok) → this' = this.
Proof.
  unfold GetDetectedMarkerPose.
  destruct (_detectedMarkers this !! k) as [[mid mpos mrot]|];
    by intros [= <- _ _ _].
Qed.

(** X1. For a capacity between 0 and [INT_MAX], [GetDetectedMarkerIds]
    returns [false] exactly when the capacity is below the number of stored
    markers, and then the buffer is as it was; otherwise (the buffer having
    a cell for every marker) it returns [true] and the buffer starts with
    the stored ids, followed by its old cells from that position on. *)
Theorem GetDetectedMarkerIds_capacity this buf (size : Z) :
  0 ≤ size ≤ INT_MAX →
  (Z.of_nat (base.size (_detectedMarkers this)) ≤ size →
   (base.size (_detectedMarkers this) ≤ length buf)%nat) →
  ∃ (buf' : list Z) (ok : bool),
    GetDetectedMarkerIds this buf size = Some (this, buf', ok)
    ∧ (ok = false ↔ size < Z.of_nat (base.size (_detectedMarkers this)))
    ∧ (ok = false → buf' = buf)
    ∧ (ok = true →
       buf' = stored_ids this
                ++ drop (base.size (_detectedMarkers this)) buf).
Proof.
  intros Hsize Hbuf.
  destruct (decide (size < Z.of_nat (base.size (_detectedMarkers this))))
    as [Hsmall|Hfit].
  - exists buf, false. split; [by apply GetDetectedMarkerIds_refuses|].
    repeat split; done.
  - eexists _, true. split.
    + apply GetDetectedMarkerIds_writes; [done|lia|apply Hbuf; lia].
    + split; [|done]. split; [done|lia].
Qed.

(** X2. A negative capacity is never refused: the cast to [size_t] makes
    it larger than any number of markers, so the call writes every stored
    id and returns [true] (here with a buffer that has the cells). *)
Theorem GetDetectedMarkerIds_negative this buf (size : Z) :
  INT_MIN ≤ size < 0 →
  Z.of_nat (base.size (_detectedMarkers this)) ≤ INT_MAX →
  (base.size (_detectedMarkers this) ≤ length buf)%nat →
  GetDetectedMarkerIds this buf size =
    Some (this,
          stored_ids this ++ drop (base.size (_detectedMarkers this)) buf,
          true).
Proof.
  intros Hneg Hmax Hbuf. unfold GetDetectedMarkerIds.
  rewrite static_cast_size_t_negative by done.
  rewrite decide_False by (unfold INT_MIN, INT_MAX in *; lia).
  rewrite write_ids_fits by (rewrite length_map_to_list; simpl; lia).
  simpl. by rewrite length_map_to_list.
Qed.

(** X3. On a newly constructed detector [GetDetectedMarkerIds] returns
    [true] for every capacity, negative ones included, and every buffer,
    and writes nothing; [GetDetectedMarkerPose] returns [false] for every
    id and leaves both output objects as they were. *)
Theorem new_detector_queries buf (size k : Z) (p r : Vector3 FM) :
  GetDetectedMarkerIds ArUcoMarkerDetector_new buf size
    = Some (ArUcoMarkerDetector_new, buf, true)
  ∧ GetDetectedMarkerPose ArUcoMarkerDetector_new k p r
    = (ArUcoMarkerDetector_new, p, r, false).
Proof.
  split.
  - unfold GetDetectedMarkerIds, ArUcoMarkerDetector_new. simpl.
    rewrite map_size_empty, map_to_list_empty.
    rewrite decide_False; [done|].
    unfold static_cast_size_t, size_t_bits.
    pose proof (Z.mod_pos_bound size (2 ^ 64) ltac:(lia)). lia.
  - apply GetDetectedMarkerPose_missing. apply lookup_empty.
Qed.

End QueryBounds.

(** ** A pass followed by queries *)

Section PassQueries.
Context {FM : FloatModel} {CV : ArUco FM}.
Implicit Types (this : ArUcoMarkerDetector FM) (ids : list Z).
Implicit Types (rvecs tvecs : list cv.Vec3d).

(** A key stays once it is there, and every turn of the loop adds its. *)
Lemma for_loop_store_is_Some ids rvecs tvecs (n i : nat) this this' (k : Z) :
  for_loop n i (store_marker ids rvecs tvecs) this = Some this' →
  is_Some (_detectedMarkers this !! k)
    ∨ (∃ j : nat, (i ≤ j < i + n)%nat ∧ ids !! j = Some k) →
  is_Some (_detectedMarkers this' !! k).
Proof.
  revert i this. induction n as [|n IH]; intros i this Hrun Hk; simpl in Hrun.
  - simplify_eq. destruct Hk as [Hk|(j & Hj & _)]; [done|lia].
  - destruct (store_marker ids rvecs tvecs i this) as [this1|] eqn:Hb;
      simpl in Hrun; [|done].
    apply (IH _ _ Hrun).
    apply store_marker_inv in Hb as (k1 & t & r & Hk1 & _ & _ & Hmap).
    destruct Hk as [Hk|(j & Hj & Hjk)].
    + left. rewrite Hmap. destruct (decide (k1 = k)) as [->|Hne].
      * rewrite lookup_insert_eq. by eexists.
      * by rewrite lookup_insert_ne.
    + destruct (decide (j = i)) as [->|Hne].
      * left. rewrite Hmap. simplify_eq. rewrite lookup_insert_eq. by eexists.
      * right. exists j. split; [lia|done].
Qed.

Lemma length_remove_dups_le (l : list Z) :
  (length (remove_dups l) ≤ length l)%nat.
Proof.
  apply submseteq_length, NoDup_submseteq; [apply NoDup_remove_dups|].
  intros k. by rewrite elem_of_remove_dups.
Qed.

Lemma reachable_keyed this : reachable this → keyed_by_id this.
Proof.
  induction 1 as [|this this' ok ? ? ? ? ? ? ? ? ? _ _ Hrun
                  |this this' buf buf' size ok _ IH Hcall
                  |this this' k p r p' r' ok _ IH Hcall].
  - intros k marker. unfold ArUcoMarkerDetector_new. simpl.
    by rewrite lookup_empty.
  - by eapply DetectMarkers_keyed.
  - by rewrite (GetDetectedMarkerIds_same_detector _ _ _ _ _ _ Hcall).
  - by rewrite (GetDetectedMarkerPose_same_detector _ _ _ _ _ _ _ _ Hcall).
Qed.

(** X7. Every detector that calls of the member functions can produce
    files each marker under the marker's own id; so the ids that
    [GetDetectedMarkerIds] has to report are pairwise different, and they
    are exactly the keys of the store. *)
Theorem reachable_invariant this :
  reachable this →
  keyed_by_id this
  ∧ NoDup (stored_ids this)
  ∧ ∀ k : Z, k ∈ stored_ids this ↔ is_Some (_detectedMarkers this !! k).
Proof.
  intros Hkeyed%reachable_keyed. split; [done|]. split.
  - by apply stored_ids_NoDup.
  - intros k. by apply elem_of_stored_ids.
Qed.

(** X8. On a detector that calls of the member functions can produce, the
    two queries agree: with a capacity and a buffer that are enough,
    [GetDetectedMarkerIds] returns [true], and an id is among the ids it
    wrote exactly when [GetDetectedMarkerPose] returns [true] for it. *)
Theorem queries_agree this buf (size : Z) :
  reachable this →
  0 ≤ size ≤ INT_MAX →
  Z.of_nat (base.size (_detectedMarkers this)) ≤ size →
  (base.size (_detectedMarkers this) ≤ length buf)%nat →
  ∃ buf',
    GetDetectedMarkerIds this buf size = Some (this, buf', true)
    ∧ ∀ (k : Z) (p r : Vector3 FM),
        k ∈ take (base.size (_detectedMarkers this)) buf'
        ↔ (GetDetectedMarkerPose this k p r).2 = true.
Proof.
  intros Hkeyed%reachable_keyed Hsize Hfit Hbuf.
  eexists. split; [by apply GetDetectedMarkerIds_writes|].
  intros k p r.
  rewrite take_app_length' by (symmetry; apply length_stored_ids).
  rewrite elem_of_stored_ids by done.
  destruct (_detectedMarkers this !! k) as [marker|] eqn:Hk.
  - rewrite (GetDetectedMarkerPose_found _ _ _ _ _ Hk). simpl.
    split; [done|]. by eexists.
  - rewrite (GetDetectedMarkerPose_missing _ _ _ _ Hk). simpl.
    split; [by intros [??]|done].
Qed.

Section Pass.
Variables (imageData : list Byte.byte) (imageWidth imageHeight : Z).
Variables (focalLength principalPoint : list float).
Variables (radialDistortion tangentialDistortion : list float).
Variables (markerSize : float) (arUcoMarkerDictionaryId : Z).

Local Abbreviation pass :=
  (pose_pass imageData imageWidth imageHeight focalLength principalPoint
     radialDistortion tangentialDistortion markerSize arUcoMarkerDictionaryId).
Local Abbreviation detect this :=
  (DetectMarkers this imageData imageWidth imageHeight focalLength
     principalPoint radialDistortion tangentialDistortion markerSize
     arUcoMarkerDictionaryId).

(** X4. A pass followed by a lookup: for an id the detector reported, with
    [j] its last position among the reported ids, [GetDetectedMarkerPose]
    returns [true]; the position it gives is the [j]-th translation vector
    of the solver and the rotation the [j]-th rotation vector, each
    component converted to [float]. *)
Theorem pose_after_pass this ids rvecs tvecs (j : nat) (k : Z)
    (t r : cv.Vec3d) :
  pass = Some (ids, rvecs, tvecs) →
  (length ids ≤ length rvecs)%nat → (length ids ≤ length tvecs)%nat →
  ids !! j = Some k → tvecs !! j = Some t → rvecs !! j = Some r →
  (∀ j' : nat, (j < j')%nat → ids !! j' ≠ Some k) →
  ∃ this',
    DetectMarkers this imageData imageWidth imageHeight focalLength
      principalPoint radialDistortion tangentialDistortion markerSize
      arUcoMarkerDictionaryId = Some (this', true)
    ∧ ∀ p0 r0 : Vector3 FM,
        GetDetectedMarkerPose this' k p0 r0 =
          (this',
           {| x := static_cast_float (cv.v0 t);
              y := static_cast_float (cv.v1 t);
              z := static_cast_float (cv.v2 t) |},
           {| x := static_cast_float (cv.v0 r);
              y := static_cast_float (cv.v1 r);
              z := static_cast_float (cv.v2 r) |},
           true).
Proof.
  intros Hpass Hr Ht Hk Htj Hrj Hlast.
  destruct (DetectMarkers_runs _ _ _ _ _ _ _ _ _ this _ _ _ Hpass Hr Ht)
    as (this' & Hloop & Hrun).
  exists this'. split; [done|]. intros p0 r0.
  rewrite (GetDetectedMarkerPose_found _ k (make_marker k t r)); [done|].
  apply (for_loop_store_last _ _ _ _ _ _ _ j k t r Hloop); try done.
  - apply lookup_lt_Some in Hk. lia.
  - intros j' [Hj' _]. by apply Hlast.
Qed.

(** X5. A pass followed by a lookup of an id the detector did not report:
    [GetDetectedMarkerPose] returns [false] and leaves both output objects
    as they were, whatever the detector held before the pass. *)
Theorem pose_of_unreported_id this ids rvecs tvecs (k : Z) :
  pass = Some (ids, rvecs, tvecs) →
  (length ids ≤ length rvecs)%nat → (length ids ≤ length tvecs)%nat →
  k ∉ ids →
  ∃ this',
    DetectMarkers this imageData imageWidth imageHeight focalLength
      principalPoint radialDistortion tangentialDistortion markerSize
      arUcoMarkerDictionaryId = Some (this', true)
    ∧ ∀ p0 r0 : Vector3 FM,
        GetDetectedMarkerPose this' k p0 r0 = (this', p0, r0, false).
Proof.
  intros Hpass Hr Ht Hk.
  destruct (DetectMarkers_runs _ _ _ _ _ _ _ _ _ this _ _ _ Hpass Hr Ht)
    as (this' & Hloop & Hrun).
  exists this'. split; [done|]. intros p0 r0.
  apply GetDetectedMarkerPose_missing.
  rewrite (for_loop_store_other _ _ _ _ _ _ _ k Hloop).
  - apply lookup_empty.
  - intros j _ Hj. apply Hk. by eapply list_elem_of_lookup_2.
Qed.

(** X6. After a pass the ids that [GetDetectedMarkerIds] has to report
    are, up to their order, the ids the detector reported with repetitions
    removed; the store holds as many markers as there are different
    reported ids, never more than the detector reported, and as many as it
    reported when no id is repeated. *)
Theorem ids_after_pass this ids rvecs tvecs :
  pass = Some (ids, rvecs, tvecs) →
  (length ids ≤ length rvecs)%nat → (length ids ≤ length tvecs)%nat →
  ∃ this',
    DetectMarkers this imageData imageWidth imageHeight focalLength
      principalPoint radialDistortion tangentialDistortion markerSize
      arUcoMarkerDictionaryId = Some (this', true)
    ∧ stored_ids this' ≡ₚ remove_dups ids
    ∧ base.size (_detectedMarkers this') = length (remove_dups ids)
    ∧ (base.size (_detectedMarkers this') ≤ length ids)%nat
    ∧ (NoDup ids → base.size (_detectedMarkers this') = length ids).
Proof.
  intros Hpass Hr Ht.
  destruct (DetectMarkers_runs _ _ _ _ _ _ _ _ _ this _ _ _ Hpass Hr Ht)
    as (this' & Hloop & Hrun).
  assert (keyed_by_id this') as Hkeyed by (by eapply DetectMarkers_keyed).
  assert (stored_ids this' ≡ₚ remove_dups ids) as Hperm.
  { apply NoDup_Permutation;
      [by apply stored_ids_NoDup|apply NoDup_remove_dups|].
    intros k. rewrite elem_of_remove_dups, elem_of_stored_ids by done.
    split.
    - intros Hsome. destruct (decide (k ∈ ids)) as [|Hout]; [done|].
      rewrite (for_loop_store_other _ _ _ _ _ _ _ k Hloop) in Hsome.
      + unfold ArUcoMarkerDetector_new in Hsome. simpl in Hsome.
        rewrite lookup_empty in Hsome. by destruct Hsome.
      + intros j _ Hj. apply Hout. by eapply list_elem_of_lookup_2.
    - intros [j Hj]%list_elem_of_lookup_1.
      apply (for_loop_store_is_Some _ _ _ _ _ _ _ k Hloop).
      right. exists j. split; [|done]. apply lookup_lt_Some in Hj. lia. }
  assert (base.size (_detectedMarkers this') = length (remove_dups ids))
    as Hsize by (by rewrite <- length_stored_ids, Hperm).
  exists this'. split; [done|]. split; [done|]. split; [done|]. split.
  - rewrite Hsize. apply length_remove_dups_le.
  - intros Hnodup. rewrite Hsize.
    apply Permutation_length, NoDup_Permutation;
      [apply NoDup_remove_dups|done|].
    intros k. apply elem_of_remove_dups.
Qed.

End Pass.

Lemma cameraMatrix_of_is_Some (focalLength principalPoint : list float) :
  is_Some (cameraMatrix_of focalLength principalPoint)
  ↔ (2 ≤ length focalLength)%nat ∧ (2 ≤ length principalPoint)%nat.
Proof.
  split.
  - intros [K HK].
    destruct focalLength as [|fx [|fy fl]], principalPoint as [|px [|py pp]];
      try discriminate HK; simpl; lia.
  - intros [Hfl Hpp].
    destruct focalLength as [|fx [|fy fl]], principalPoint as [|px [|py pp]];
      simpl in *; try lia.
    by eexists.
Qed.

Lemma distCoeffMatrix_of_is_Some
    (radialDistortion tangentialDistortion : list float) :
  is_Some (distCoeffMatrix_of radialDistortion tangentialDistortion)
  ↔ (3 ≤ length radialDistortion)%nat ∧ (2 ≤ length tangentialDistortion)%nat.
Proof.
  split.
  - intros [D HD].
    destruct radialDistortion as [|r1 [|r2 [|r3 rd]]],
      tangentialDistortion as [|t1 [|t2 td]];
      try discriminate HD; simpl; lia.
  - intros [Hrd Htd].
    destruct radialDistortion as [|r1 [|r2 [|r3 rd]]],
      tangentialDistortion as [|t1 [|t2 td]];
      simpl in *; try lia.
    by eexists.
Qed.

(** X9. The camera model reads [focalLength[0..1]], [principalPoint[0..1]],
    [radialDistortion[0..2]] and [tangentialDistortion[0..1]] and nothing
    else: each matrix is defined exactly when those elements exist, and
    further elements of the arrays do not change it. *)
Theorem camera_model_reads
    (focalLength principalPoint radialDistortion tangentialDistortion
       : list float) :
  (is_Some (cameraMatrix_of focalLength principalPoint)
   ↔ (2 ≤ length focalLength)%nat ∧ (2 ≤ length principalPoint)%nat)
  ∧ (is_Some (distCoeffMatrix_of radialDistortion tangentialDistortion)
     ↔ (3 ≤ length radialDistortion)%nat
       ∧ (2 ≤ length tangentialDistortion)%nat)
  ∧ cameraMatrix_of focalLength principalPoint
    = cameraMatrix_of (take 2 focalLength) (take 2 principalPoint)
  ∧ distCoeffMatrix_of radialDistortion tangentialDistortion
    = distCoeffMatrix_of (take 3 radialDistortion)
        (take 2 tangentialDistortion).
Proof.
  split; [apply cameraMatrix_of_is_Some|].
  split; [apply distCoeffMatrix_of_is_Some|].
  split.
  - by destruct focalLength as [|fx [|fy fl]],
      principalPoint as [|px [|py pp]].
  - by destruct radialDistortion as [|r1 [|r2 [|r3 rd]]],
      tangentialDistortion as [|t1 [|t2 td]].
Qed.

End PassQueries.

(** ** The dilated pixels, one by one *)

Section DilatePixels.
Implicit Types (src : cv.Mat N) (cells out : list N).

Lemma foldr_max_elem (l : list N) : l ≠ [] → foldr N.max 0%N l ∈ l.
Proof.
  induction l as [|a l IH]; [done|]. intros _. simpl.
  destruct l as [|b l].
  - simpl. rewrite N.max_0_r. apply list_elem_of_here.
  - destruct (N.max_spec a (foldr N.max 0%N (b :: l))) as [[_ ->]|[_ ->]].
    + apply list_elem_of_further, IH. done.
    + apply list_elem_of_here.
Qed.

Lemma Mat_at_Some_inv {A : Type} (m : cv.Mat A) (i j : Z) (v : A) :
  cv.Mat_at m i j = Some v →
  0 ≤ i < cv.rows m ∧ 0 ≤ j < cv.cols m
  ∧ cv.data m !! Z.to_nat (i * cv.cols m + j) = Some v.
Proof. unfold cv.Mat_at. case_decide; [|done]. intros Hv. by repeat split; try lia. Qed.

(** A pixel of the mask seen through [nonDilatedMask] is a cell of the
    caller's buffer. *)
Lemma Mat_at_cells (row col : Z) cells (r c : Z) :
  0 ≤ r < row → 0 ≤ c < col →
  cv.Mat_at {| cv.rows := row; cv.cols := col;
               cv.data := take (Z.to_nat (row * col)) cells |} r c
    = cells !! Z.to_nat (r * col + c).
Proof.
  intros Hr Hc. unfold cv.Mat_at. simpl. rewrite decide_True by lia.
  apply lookup_take_lt. nia.
Qed.

Lemma elem_of_rect3_offsets (d : Z * Z) :
  d ∈ morph.kernel_offsets (morph.getStructuringElement_RECT 3 3 (1, 1))
  ↔ (-1 ≤ d.1 ≤ 1) ∧ (-1 ≤ d.2 ≤ 1).
Proof.
  rewrite rect3_offsets. destruct d as [a b]. simpl. split.
  - intros Hd.
    repeat (apply elem_of_cons in Hd as [Heq|Hd]; [simplify_eq; lia|]).
    by apply elem_of_nil in Hd.
  - intros [Ha Hb].
    assert (a = -1 ∨ a = 0 ∨ a = 1) as [-> | [-> | ->]] by lia;
      assert (b = -1 ∨ b = 0 ∨ b = 1) as [-> | [-> | ->]] by lia;
      apply list_elem_of_In; simpl; auto 12.
Qed.

(** X10. With the mask as in C2 and C8, every pixel of the buffer of
    [dilatedMask] is the greatest value found in the mask on the 3x3 square
    around it, cut to the image: no pixel of the square within the image
    exceeds it, and one of them has exactly its value. *)
Theorem dilated_pixel_is_max (mem : memory) (mask : pointer)
    (col row : Z) cells :
  mem !! mask = Some cells → 0 < row → 0 < col →
  (Z.to_nat (row * col) ≤ length cells)%nat →
  ∃ (mem_at_return : memory) (nonDilatedMask dilatedMask : MatHeader)
    (out : list N),
    GetDilatedMask_locals mem mask col row
      = Some (mem_at_return, nonDilatedMask, dilatedMask)
    ∧ mem_at_return !! hdr_data dilatedMask = Some out
    ∧ ∀ r c : Z, 0 ≤ r < row → 0 ≤ c < col →
        ∃ v' : N,
          out !! Z.to_nat (r * col + c) = Some v'
          ∧ (∀ (r' c' : Z) (v : N),
               r - 1 ≤ r' ≤ r + 1 → c - 1 ≤ c' ≤ c + 1 →
               0 ≤ r' < row → 0 ≤ c' < col →
               cells !! Z.to_nat (r' * col + c') = Some v → (v ≤ v')%N)
          ∧ (∃ r' c' : Z,
               r - 1 ≤ r' ≤ r + 1 ∧ c - 1 ≤ c' ≤ c + 1
               ∧ 0 ≤ r' < row ∧ 0 ≤ c' < col
               ∧ cells !! Z.to_nat (r' * col + c') = Some v').
Proof.
  intros Hmask Hrow Hcol Hlen.
  pose proof (GetDilatedMask_locals_eq _ _ _ _ _ Hmask Hrow Hcol Hlen) as Hloc.
  set (image := {| cv.rows := row; cv.cols := col;
                   cv.data := take (Z.to_nat (row * col)) cells |}) in *.
  set (kernel := morph.getStructuringElement_RECT 3 3 (1, 1)) in *.
  eexists _, _, _, (cv.data (morph.dilate image kernel)).
  split; [exact Hloc|]. split; [apply lookup_insert_eq|].
  intros r c Hr Hc.
  assert (Z.of_nat (Z.to_nat (r * col + c)) = r * col + c) as Hidx by nia.
  assert ((r * col + c) / col = r) as Hdiv by (symmetry; apply (Z.div_unique _ _ _ c); lia).
  assert ((r * col + c) mod col = c) as Hmod by (symmetry; apply (Z.mod_unique _ _ r); lia).
  eexists. split; [|split].
  - rewrite dilate_data_lookup by (simpl; nia).
    simpl. by rewrite Hidx, Hdiv, Hmod.
  - intros r' c' v Hr' Hc' Hrin Hcin Hv.
    apply foldr_max_ge, list_elem_of_omap.
    exists (r' - r, c' - c). split.
    + apply elem_of_rect3_offsets. simpl. lia.
    + simpl. replace (r + (r' - r)) with r' by lia.
      replace (c + (c' - c)) with c' by lia.
      rewrite <- Hv. apply Mat_at_cells; lia.
  - set (found := omap (λ d : Z * Z, cv.Mat_at image (r + d.1) (c + d.2))
                    (morph.kernel_offsets kernel)).
    assert (found ≠ []) as Hne.
    { assert (∃ v, cv.Mat_at image r c = Some v) as [v Hv].
      { unfold image. rewrite (Mat_at_cells row col cells r c) by done.
        apply lookup_lt_is_Some. nia. }
      assert (v ∈ found) as Hin.
      { apply list_elem_of_omap. exists (0, 0). split.
        - apply rect3_covers_anchor.
        - simpl. by rewrite !Z.add_0_r. }
      intros Hnil. rewrite Hnil in Hin. by apply elem_of_nil in Hin. }
    apply foldr_max_elem, list_elem_of_omap in Hne
      as ([dr dc] & Hd%elem_of_rect3_offsets & Hat). simpl in Hd, Hat.
    destruct (Mat_at_Some_inv _ _ _ _ Hat) as (Hrin & Hcin & _).
    simpl in Hrin, Hcin.
    exists (r + dr), (c + dc). repeat split; try lia.
    rewrite <- (Mat_at_cells row col cells (r + dr) (c + dc)) by done.
    exact Hat.
Qed.

End DilatePixels.

(** ** OutputDebugMatrix *)

Section DebugOutputFacts.
Context {T : Type} (to_wstring : T → string).
Implicit Types (mat : cv.Mat T) (prompt output : string).

(** The text after the elements [l] have been appended to [prompt]. *)
Local Abbreviation text_of prompt l :=
  (foldl (λ (output : string) (value : T),
            output +:+ (", " +:+ to_wstring value)) prompt l).

Lemma append_entry_at mat (m n : nat) output :
  (m < Z.to_nat (cv.rows mat))%nat → (n < Z.to_nat (cv.cols mat))%nat →
  append_entry to_wstring mat m n output =
    (value ← cv.data mat !! (m * Z.to_nat (cv.cols mat) + n)%nat;
     Some (output +:+ (", " +:+ to_wstring value))).
Proof.
  intros Hm Hn. unfold append_entry, cv.Mat_at.
  rewrite decide_True by lia. do 2 f_equal. nia.
Qed.

(** One row: [k] more columns from column [n]. *)
Lemma row_loop mat prompt (m k n : nat) :
  length (cv.data mat)
    = (Z.to_nat (cv.rows mat) * Z.to_nat (cv.cols mat))%nat →
  (m < Z.to_nat (cv.rows mat))%nat → (n + k ≤ Z.to_nat (cv.cols mat))%nat →
  for_loop k n (append_entry to_wstring mat m)
    (text_of prompt (take (m * Z.to_nat (cv.cols mat) + n) (cv.data mat)))
  = Some (text_of prompt
            (take (m * Z.to_nat (cv.cols mat) + n + k) (cv.data mat))).
Proof.
  intros Hlen Hm. revert n.
  induction k as [|k IH]; intros n Hk; simpl.
  - by rewrite Nat.add_0_r.
  - rewrite append_entry_at by lia.
    destruct (lookup_lt_is_Some_2 (cv.data mat)
                (m * Z.to_nat (cv.cols mat) + n)) as [value Hvalue]; [nia|].
    rewrite Hvalue. simpl.
    assert (text_of prompt
              (take (S (m * Z.to_nat (cv.cols mat) + n)) (cv.data mat))
            = text_of prompt
                (take (m * Z.to_nat (cv.cols mat) + n) (cv.data mat))
                +:+ (", " +:+ to_wstring value)) as <-
      by (by rewrite (take_S_r _ _ _ Hvalue), foldl_snoc).
    replace (S (m * Z.to_nat (cv.cols mat) + n))
      with (m * Z.to_nat (cv.cols mat) + S n)%nat by lia.
    rewrite IH by lia. do 2 f_equal.
    by rewrite <- Nat.add_assoc, Nat.add_succ_comm, Nat.add_assoc.
Qed.

(** [k] more rows from row [m]. *)
Lemma rows_loop mat prompt (k m : nat) :
  length (cv.data mat)
    = (Z.to_nat (cv.rows mat) * Z.to_nat (cv.cols mat))%nat →
  (m + k ≤ Z.to_nat (cv.rows mat))%nat →
  for_loop k m
    (λ m output,
       for_loop (Z.to_nat (cv.cols mat)) 0
         (append_entry to_wstring mat m) output)
    (text_of prompt (take (m * Z.to_nat (cv.cols mat)) (cv.data mat)))
  = Some (text_of prompt
            (take ((m + k) * Z.to_nat (cv.cols mat)) (cv.data mat))).
Proof.
  intros Hlen. revert m.
  induction k as [|k IH]; intros m Hk; simpl.
  - by rewrite Nat.add_0_r.
  - pose proof (row_loop mat prompt m (Z.to_nat (cv.cols mat)) 0 Hlen
                  ltac:(lia) ltac:(lia)) as Hrow.
    rewrite !Nat.add_0_r in Hrow. rewrite Hrow. simpl.
    replace (m * Z.to_nat (cv.cols mat) + Z.to_nat (cv.cols mat))%nat
      with (S m * Z.to_nat (cv.cols mat))%nat by lia.
    rewrite IH by lia.
    by replace (S m + k)%nat with (m + S k)%nat by lia.
Qed.

(** X11. For a matrix that holds rows x cols elements, the text
    [OutputDebugMatrix] hands to [OutputDebugString] is the prompt
    followed, for each element in storage order (row by row), by a comma,
    a blank and the element's text; for a matrix without elements it is
    the prompt alone. *)
Theorem OutputDebugMatrix_text prompt mat :
  length (cv.data mat)
    = (Z.to_nat (cv.rows mat) * Z.to_nat (cv.cols mat))%nat →
  OutputDebugMatrix to_wstring prompt mat =
    Some (foldl (λ (output : string) (value : T),
                   output +:+ (", " +:+ to_wstring value))
            prompt (cv.data mat))
  ∧ (cv.data mat = [] → OutputDebugMatrix to_wstring prompt mat = Some prompt).
Proof.
  intros Hlen.
  assert (OutputDebugMatrix to_wstring prompt mat
          = Some (text_of prompt (cv.data mat))) as Htext.
  { unfold OutputDebugMatrix.
    pose proof (rows_loop mat prompt (Z.to_nat (cv.rows mat)) 0 Hlen
                  ltac:(lia)) as Hrows.
    simpl in Hrows. rewrite Hrows. f_equal.
    by rewrite take_ge by lia. }
  split; [done|]. intros Hnil. rewrite Htext, Hnil. done.
Qed.

End DebugOutputFacts.

(** ** The further properties at concrete inputs *)

Lemma GetDetectedMarkerIds_capacity_witness :
  0 ≤ 1 ≤ INT_MAX
  ∧ ∃ (buf' : list Z) (ok : bool),
      GetDetectedMarkerIds detector_7_3 [100; 101; 102] 1
        = Some (detector_7_3, buf', ok)
      ∧ (ok = false
         ↔ 1 < Z.of_nat (base.size (_detectedMarkers detector_7_3)))
      ∧ (ok = false → buf' = [100; 101; 102]).
Proof.
  assert (0 ≤ 1 ≤ INT_MAX) as Hsize by (by vm_compute).
  split; [exact Hsize|].
  destruct (GetDetectedMarkerIds_capacity detector_7_3 [100; 101; 102] 1 Hsize)
    as (buf' & ok & Hcall & Hiff & Hkept & _).
  { intros _. apply Nat.leb_le. reflexivity. }
  exists buf', ok. split; [exact Hcall|]. split; [exact Hiff|exact Hkept].
Defined.

Lemma GetDetectedMarkerIds_negative_witness :
  INT_MIN ≤ -5 < 0
  ∧ -5 < Z.of_nat (base.size (_detectedMarkers detector_7_3))
  ∧ GetDetectedMarkerIds detector_7_3 [100; 101; 102] (-5)
    = Some (detector_7_3,
            stored_ids detector_7_3
              ++ drop (base.size (_detectedMarkers detector_7_3))
                   [100; 101; 102],
            true).
Proof.
  assert (INT_MIN ≤ -5 < 0) as Hneg by (by vm_compute).
  split; [exact Hneg|]. split; [reflexivity|].
  apply (GetDetectedMarkerIds_negative detector_7_3 [100; 101; 102] (-5) Hneg).
  - apply Z.leb_le. reflexivity.
  - apply Nat.leb_le. reflexivity.
Defined.

Lemma reachable_detector_7_3 : @reachable binary32 scripted detector_7_3.
Proof.
  apply (@reachable_DetectMarkers binary32 scripted
           ArUcoMarkerDetector_new detector_7_3 true frame_7_7_3 3 1
           some_focalLength some_principalPoint some_radialDistortion
           some_tangentialDistortion (float_of_Z 1) 0 reachable_new).
  apply scripted_run_7_7_3.
Defined.

Lemma reachable_invariant_witness :
  @reachable binary32 scripted detector_7_3
  ∧ keyed_by_id detector_7_3
  ∧ NoDup (stored_ids detector_7_3).
Proof.
  split; [exact reachable_detector_7_3|].
  destruct (@reachable_invariant binary32 scripted detector_7_3
              reachable_detector_7_3) as (Hkeyed & Hnodup & _).
  by split.
Defined.

Lemma queries_agree_witness :
  @reachable binary32 scripted detector_7_3
  ∧ 0 ≤ 2 ≤ INT_MAX
  ∧ ∃ buf',
      GetDetectedMarkerIds detector_7_3 [100; 101; 102] 2
        = Some (detector_7_3, buf', true)
      ∧ ∀ (k : Z) (p r : Vector3 binary32),
          k ∈ take (base.size (_detectedMarkers detector_7_3)) buf'
          ↔ (GetDetectedMarkerPose detector_7_3 k p r).2 = true.
Proof.
  assert (0 ≤ 2 ≤ INT_MAX) as Hsize by (by vm_compute).
  split; [exact reachable_detector_7_3|]. split; [exact Hsize|].
  apply (@queries_agree binary32 scripted detector_7_3 [100; 101; 102] 2
           reachable_detector_7_3 Hsize).
  - apply Z.leb_le. reflexivity.
  - apply Nat.leb_le. reflexivity.
Defined.

Lemma pose_after_pass_witness :
  ∃ this',
    run_scripted detector_5 frame_7_7_3 = Some (this', true)
    ∧ ∀ p0 r0 : Vector3 binary32,
        GetDetectedMarkerPose this' 7 p0 r0 =
          (this',
           {| x := float_of_Z 1; y := float_of_Z 1; z := float_of_Z 1 |},
           {| x := float_of_Z 2; y := float_of_Z 2; z := float_of_Z 2 |},
           true).
Proof.
  destruct (@pose_after_pass binary32 scripted frame_7_7_3 3 1
              some_focalLength some_principalPoint
              some_radialDistortion some_tangentialDistortion (float_of_Z 1) 0
              detector_5 _ _ _ 1%nat 7
              (scripted_pose 1).2 (scripted_pose 1).1 scripted_pass_7_7_3)
    as (this' & Hrun & Hpose).
  { simpl. lia. }
  { simpl. lia. }
  { reflexivity. }
  { reflexivity. }
  { reflexivity. }
  { intros [|[|[|j']]] Hj'; simpl; (lia || done). }
  exists this'. split; [exact Hrun|exact Hpose].
Defined.

Lemma pose_of_unreported_id_witness :
  is_Some (_detectedMarkers detector_5 !! 5)
  ∧ ∃ this',
      run_scripted detector_5 frame_7_7_3 = Some (this', true)
      ∧ ∀ p0 r0 : Vector3 binary32,
          GetDetectedMarkerPose this' 5 p0 r0 = (this', p0, r0, false).
Proof.
  split; [by eexists|].
  apply (@pose_of_unreported_id binary32 scripted frame_7_7_3 3 1
           some_focalLength some_principalPoint
           some_radialDistortion some_tangentialDistortion (float_of_Z 1) 0
           detector_5 _ _ _ 5 scripted_pass_7_7_3).
  - simpl. lia.
  - simpl. lia.
  - intros Hin.
    repeat (apply elem_of_cons in Hin as [?|Hin]; [done|]).
    by apply elem_of_nil in Hin.
Defined.

Lemma ids_after_pass_witness :
  ∃ this',
    run_scripted detector_5 frame_7_7_3 = Some (this', true)
    ∧ stored_ids this' ≡ₚ remove_dups [7; 7; 3]
    ∧ base.size (_detectedMarkers this') = length (remove_dups [7; 7; 3])
    ∧ (base.size (_detectedMarkers this') ≤ length [7; 7; 3])%nat.
Proof.
  destruct (@ids_after_pass binary32 scripted frame_7_7_3 3 1
              some_focalLength some_principalPoint
              some_radialDistortion some_tangentialDistortion (float_of_Z 1) 0
              detector_5 _ _ _ scripted_pass_7_7_3)
    as (this' & Hrun & Hperm & Hsize & Hle & _).
  { simpl. lia. }
  { simpl. lia. }
  by exists this'.
Defined.

Lemma dilated_pixel_is_max_witness :
  memory_with_mask !! 5%positive = Some mask_3x4
  ∧ ∃ (mem_at_return : memory) (nonDilatedMask dilatedMask : MatHeader)
      (out : list N),
      GetDilatedMask_locals memory_with_mask 5 4 3
        = Some (mem_at_return, nonDilatedMask, dilatedMask)
      ∧ mem_at_return !! hdr_data dilatedMask = Some out
      ∧ ∃ v' : N,
          out !! Z.to_nat (1 * 4 + 2) = Some v'
          ∧ (9 ≤ v')%N
          ∧ ∃ r' c' : Z,
              0 ≤ r' ≤ 2 ∧ 1 ≤ c' ≤ 3
              ∧ mask_3x4 !! Z.to_nat (r' * 4 + c') = Some v'.
Proof.
  split; [reflexivity|].
  destruct (dilated_pixel_is_max memory_with_mask 5 4 3 mask_3x4)
    as (mem1 & src & dst & out & Hloc & Hout & Hpix).
  { reflexivity. }
  { lia. }
  { lia. }
  { simpl. lia. }
  exists mem1, src, dst, out. split; [exact Hloc|]. split; [exact Hout|].
  destruct (Hpix 1 2) as (v' & Hv' & Hbound & (r' & c' & Hr' & Hc' & _ & _ & Hat));
    [lia|lia|].
  exists v'. split; [exact Hv'|]. split.
  - apply (Hbound 2 3); [lia|lia|lia|lia|reflexivity].
  - exists r', c'. split; [lia|]. split; [lia|exact Hat].
Defined.

Lemma OutputDebugMatrix_text_witness :
  OutputDebugMatrix (λ b : bool, if b then "1" else "0") "M: "
    {| cv.rows := 2; cv.cols := 2; cv.data := [true; false; false; true] |}
  = Some "M: , 1, 0, 0, 1".
Proof.
  apply (OutputDebugMatrix_text (λ b : bool, if b then "1" else "0") "M: "
           {| cv.rows := 2; cv.cols := 2;
              cv.data := [true; false; false; true] |}).
  reflexivity.
Defined.
